(** * realip: trusted-proxy client address resolution

    A shallow embedding of [realip.go] (package [realip] of
    lestrrat-go/realip) and of the parts of the Go standard library the
    handler calls, followed by the properties of the builder, of the trust
    evaluation with its cache, and of the header resolution. *)

From Stdlib Require Import NArith Ascii String List Bool Lia.
From Stdlib.Strings Require Import Byte.
From stdpp Require Import base gmap sets list strings.

Open Scope string_scope.

(** ** Go standard library: [strings] *)

Module strings.

(** [strings.Split(s, sep)] for a one-byte separator.  The result always
    has at least one field: the text before the first separator. *)
Fixpoint Split (s : string) (sep : ascii) : list string :=
  match s with
  | EmptyString => [EmptyString]
  | String c s' =>
      if Ascii.eqb c sep then EmptyString :: Split s' sep
      else match Split s' sep with
           | f :: fs => String c f :: fs
           | [] => [String c EmptyString]
           end
  end.

(** [strings.IndexByte] and [strings.LastIndexByte]; Go's [-1] is [None]. *)
Fixpoint IndexByte (s : string) (c : ascii) : option nat :=
  match s with
  | EmptyString => None
  | String a s' =>
      if Ascii.eqb a c then Some 0
      else match IndexByte s' c with Some i => Some (S i) | None => None end
  end.

Fixpoint LastIndexByte (s : string) (c : ascii) : option nat :=
  match s with
  | EmptyString => None
  | String a s' =>
      match LastIndexByte s' c with
      | Some i => Some (S i)
      | None => if Ascii.eqb a c then Some 0 else None
      end
  end.

(** The slice expressions [s[a:b]] and [s[a:]]. *)
Definition slice (s : string) (a b : nat) : string := String.substring a (b - a) s.
Definition slice_from (s : string) (a : nat) : string :=
  String.substring a (String.length s - a) s.

End strings.

(** ** Go standard library: [net] *)

Module net.

(** [net.IP] is a byte slice.  The nil slice is the empty list: the code
    below only ever asks for its length or compares it with nil where a
    non-nil slice has four or sixteen bytes. *)
Definition IP := list byte.
Definition IPMask := list byte.

Record IPNet := { IPNet_IP : IP; Mask : IPMask }.

Definition IPv4len : nat := 4.
Definition IPv6len : nat := 16.

Definition isZeros (p : list byte) : bool :=
  forallb (fun b => N.eqb (Byte.to_N b) 0) p.

Definition byte_at (p : list byte) (i : nat) : byte := nth i p x00.

(** [func (ip IP) To4() IP] *)
Definition To4 (ip : IP) : IP :=
  if Nat.eqb (length ip) IPv4len then ip
  else if Nat.eqb (length ip) IPv6len
          && isZeros (firstn 10 ip)
          && N.eqb (Byte.to_N (byte_at ip 10)) 255
          && N.eqb (Byte.to_N (byte_at ip 11)) 255
       then firstn 4 (skipn 12 ip)
       else [].

(** [func networkNumberAndMask(n *IPNet) (ip IP, m IPMask)] *)
Definition networkNumberAndMask (n : IPNet) : IP * IPMask :=
  let ip4 := To4 (IPNet_IP n) in
  let ip := if Nat.eqb (length ip4) 0 then IPNet_IP n else ip4 in
  if Nat.eqb (length ip4) 0 && negb (Nat.eqb (length ip) IPv6len) then ([], [])
  else if Nat.eqb (length (Mask n)) IPv4len then
         if negb (Nat.eqb (length ip) IPv4len) then ([], []) else (ip, Mask n)
  else if Nat.eqb (length (Mask n)) IPv6len then
         if Nat.eqb (length ip) IPv4len then (ip, skipn 12 (Mask n)) else (ip, Mask n)
  else ([], []).

(** [func (n *IPNet) Contains(ip IP) bool] *)
Definition Contains (n : IPNet) (ip : IP) : bool :=
  let '(nn, m) := networkNumberAndMask n in
  let x := To4 ip in
  let ip := if Nat.eqb (length x) 0 then ip else x in
  let l := length ip in
  if negb (Nat.eqb l (length nn)) then false
  else forallb
         (fun i => N.eqb (N.land (Byte.to_N (byte_at nn i)) (Byte.to_N (byte_at m i)))
                         (N.land (Byte.to_N (byte_at ip i)) (Byte.to_N (byte_at m i))))
         (seq 0 l).

(** Text forms.  [digit] indexes the table ["0123456789abcdef"]. *)
Definition digits : string := "0123456789abcdef".
Definition digit (n : N) : ascii :=
  match String.get (N.to_nat n) digits with Some c => c | None => "0"%char end.

(** [appendDecimal]: an octet without leading zeros. *)
Definition appendDecimal (x : N) : string :=
  ((if N.leb 100 x then String (digit (x / 100)) "" else "")
   +:+ (if N.leb 10 x then String (digit ((x / 10) mod 10)) "" else "")
   +:+ String (digit (x mod 10)) "")%N.

(** [appendHex]: a sixteen-bit group without leading zeros. *)
Definition appendHex (x : N) : string :=
  ((if N.leb 4096 x then String (digit (N.shiftr x 12)) "" else "")
   +:+ (if N.leb 256 x then String (digit (N.land (N.shiftr x 8) 15)) "" else "")
   +:+ (if N.leb 16 x then String (digit (N.land (N.shiftr x 4) 15)) "" else "")
   +:+ String (digit (N.land x 15)) "")%N.

(** [hexString]: two digits for every byte. *)
Fixpoint hexString (b : list byte) : string :=
  match b with
  | [] => ""
  | c :: b' =>
      String (digit (N.shiftr (Byte.to_N c) 4))
        (String (digit (N.land (Byte.to_N c) 15)) (hexString b'))
  end.

Fixpoint join (sep : string) (l : list string) : string :=
  match l with
  | [] => ""
  | [x] => x
  | x :: l' => x +:+ sep +:+ join sep l'
  end.

(** Dotted-quad form of a four-byte address. *)
Definition string4 (p : list byte) : string :=
  join "." (map (fun b => appendDecimal (Byte.to_N b)) p).

(** The eight sixteen-bit groups of a sixteen-byte address. *)
Fixpoint v6u16s (p : list byte) : list N :=
  match p with
  | hi :: lo :: p' => (256 * Byte.to_N hi + Byte.to_N lo)%N :: v6u16s p'
  | _ => []
  end.

(** The run of zero groups that [::] replaces: the first longest run of
    at least two groups, as [(zeroStart, zeroEnd)]; [(255, 255)] when
    there is none. *)
Fixpoint leading (z : list bool) : nat :=
  match z with
  | true :: z' => S (leading z')
  | _ => 0
  end.

Definition zeroRunFrom (z : list bool) (i : nat) : nat :=
  i + leading (skipn i z).

Definition zeroRun (z : list bool) : nat * nat :=
  fold_left
    (fun '(zeroStart, zeroEnd) i =>
       let j := zeroRunFrom z i in
       let l := j - i in
       if Nat.leb 2 l && Nat.ltb (zeroEnd - zeroStart) l then (i, j)
       else (zeroStart, zeroEnd))
    (seq 0 8) (255, 255).

(** IPv6 text form with the zero run compressed. *)
Definition string6 (p : list byte) : string :=
  let g := v6u16s p in
  let '(zeroStart, zeroEnd) := zeroRun (map (N.eqb 0) g) in
  if Nat.ltb zeroStart zeroEnd then
    join ":" (map appendHex (firstn zeroStart g)) +:+ "::"
      +:+ join ":" (map appendHex (skipn zeroEnd g))
  else join ":" (map appendHex g).

(** [func (ip IP) String() string] *)
Definition String (ip : IP) : string :=
  if Nat.eqb (length ip) 0 then "<nil>"
  else if negb (Nat.eqb (length ip) IPv4len) && negb (Nat.eqb (length ip) IPv6len)
  then "?" +:+ hexString ip
  else
    let p4 := To4 ip in
    if Nat.eqb (length p4) IPv4len then string4 p4 else string6 ip.

(** [func SplitHostPort(hostport string) (host, port string, err error)];
    the error is its reason text. *)
Definition missingPort : string := "missing port in address".
Definition tooManyColons : string := "too many colons in address".

Definition addrErr (why : string) : string * string * option string :=
  ("", "", Some why).

Definition has_byte (s : string) (c : ascii) : bool :=
  match strings.IndexByte s c with Some _ => true | None => false end.

Definition SplitHostPort (hostport : string) : string * string * option string :=
  match strings.LastIndexByte hostport ":" with
  | None => addrErr missingPort
  | Some i =>
      let finish (host : string) (j k : nat) :=
        if has_byte (strings.slice_from hostport j) "[" then
          addrErr "unexpected '[' in address"
        else if has_byte (strings.slice_from hostport k) "]" then
          addrErr "unexpected ']' in address"
        else (host, strings.slice_from hostport (i + 1), None) in
      if bool_decide (String.get 0 hostport = Some "["%char) then
        match strings.IndexByte hostport "]" with
        | None => addrErr "missing ']' in address"
        | Some end_ =>
            if Nat.eqb (end_ + 1) (String.length hostport) then addrErr missingPort
            else if Nat.eqb (end_ + 1) i then
                   finish (strings.slice hostport 1 end_) 1 (end_ + 1)
            else if bool_decide (String.get (end_ + 1) hostport = Some ":"%char)
                 then addrErr tooManyColons
                 else addrErr missingPort
        end
      else
        let host := strings.slice hostport 0 i in
        if has_byte host ":" then addrErr tooManyColons
        else finish host 0 0
  end.

End net.

(** ** Library routines the handler is parametric in

  [strings.TrimSpace] and [strings.ToLower] follow the Unicode tables,
  [net.ParseIP] accepts the IPv4 and IPv6 text forms and
  [textproto.CanonicalMIMEHeaderKey] normalises header names.  The
  handler only passes their results on, so it is embedded over any
  implementation of the four; [ascii_lib] below is the one used to run
  it. *)

Class GoLib := {
  TrimSpace : string -> string;
  ToLower : string -> string;
  ParseIP : string -> net.IP;
  CanonicalMIMEHeaderKey : string -> string
}.

(** ** Go standard library: [net/http] *)

Module http.

(** [type Header map[string][]string] *)
Abbreviation Header := (gmap string (list string)).

Record Request := { RemoteAddr : string; Request_Header : Header }.

Section header.
Context `{GoLib}.

(** [func (h Header) Get(key string) string] *)
Definition Get (h : Header) (key : string) : string :=
    match h !! CanonicalMIMEHeaderKey key with
    | Some (v :: _) => v
    | _ => ""
    end.

(** [func (h Header) Set(key, value string)] *)
Definition Set_ (h : Header) (key value : string) : Header :=
    <[CanonicalMIMEHeaderKey key := [value]]> h.
End header.

(** [r.Header.Set(key, value)] on a request. *)
Definition Header_Set `{GoLib} (r : Request) (key value : string) : Request :=
  {| RemoteAddr := RemoteAddr r; Request_Header := Set_ (Request_Header r) key value |}.

End http.

(** ** Package [realip] *)

(** Popular Headers *)
Definition HeaderXForwardedFor : string := "x-forwarded-for".
Definition HeaderXRealIP : string := "x-real-ip".
Definition headerForwarded : string := "forwarded".

Section realip.
(** [W] is what the wrapped handler does with the response writer. *)
Context {W : Type}.
Context `{GoLib}.

(** [type Handler struct].  [next] is [None] until [Wrap] sets it;
    [cache] is the key set of the [map[string]struct{}]; the mutex
    [muCache] has no sequential content.  The entries of [trusted] are
    the networks the pointers lead to. *)
Record Handler := {
  trusted : list net.IPNet;
  srcHeader : string;
  dstHeader : string;
  recursive : bool;
  next : option (http.Request -> W);
  cache : gset string
  }.

(** [type Builder struct]; [h] always points to a handler once [New] has
    run, and [err] is the text of the recorded error. *)
Record Builder := { h : Handler; err : option string }.

(** Field assignments. *)
Definition set_srcHeader (hd : Handler) (v : string) : Handler :=
  {| trusted := trusted hd; srcHeader := v; dstHeader := dstHeader hd;
     recursive := recursive hd; next := next hd; cache := cache hd |}.
Definition set_dstHeader (hd : Handler) (v : string) : Handler :=
  {| trusted := trusted hd; srcHeader := srcHeader hd; dstHeader := v;
     recursive := recursive hd; next := next hd; cache := cache hd |}.
Definition set_trusted (hd : Handler) (v : list net.IPNet) : Handler :=
  {| trusted := v; srcHeader := srcHeader hd; dstHeader := dstHeader hd;
     recursive := recursive hd; next := next hd; cache := cache hd |}.
Definition set_recursive (hd : Handler) (v : bool) : Handler :=
  {| trusted := trusted hd; srcHeader := srcHeader hd; dstHeader := dstHeader hd;
     recursive := v; next := next hd; cache := cache hd |}.
Definition set_next (hd : Handler) (v : option (http.Request -> W)) : Handler :=
  {| trusted := trusted hd; srcHeader := srcHeader hd; dstHeader := dstHeader hd;
     recursive := recursive hd; next := v; cache := cache hd |}.
Definition set_cache (hd : Handler) (v : gset string) : Handler :=
  {| trusted := trusted hd; srcHeader := srcHeader hd; dstHeader := dstHeader hd;
     recursive := recursive hd; next := next hd; cache := v |}.

(** [func (b *Builder) Reset() *Builder] *)
Definition Reset (b : Builder) : Builder :=
  {| err := None;
     h := {| trusted := []; srcHeader := HeaderXRealIP; dstHeader := HeaderXRealIP;
             recursive := false; next := None; cache := ∅ |} |}.

(** [func New() *Builder].  The zero builder has a nil [h], which [Reset]
    replaces without reading it; any handler stands for it here. *)
Definition New : Builder := Reset {| err := None;
  h := {| trusted := []; srcHeader := ""; dstHeader := "";
          recursive := false; next := None; cache := ∅ |} |}.

(** [func (b *Builder) Build()], of result type [*Handler, error]: the returned pair and
    the builder afterwards. *)
Definition Build (b : Builder) : (option Handler * option string) * Builder :=
  let '(hd, e) := (h b, err b) in
  let b := Reset b in
  match e with
  | Some e => ((None, Some e), b)
  | None => ((Some hd, None), b)
  end.

(** [func (b *Builder) SourceHeader(name string) *Builder] *)
Definition SourceHeader (b : Builder) (name : string) : Builder :=
  match err b with
  | Some _ => b
  | None =>
      let lowered := ToLower (TrimSpace name) in
      if String.eqb lowered headerForwarded then
        {| h := h b;
           err := Some "realip.Builder: `Forwarded` header is not supported" |}
      else {| h := set_srcHeader (h b) lowered; err := err b |}
  end.

(** [func (b *Builder) DestinationHeader(header string) *Builder] *)
Definition DestinationHeader (b : Builder) (header : string) : Builder :=
  match err b with
  | Some _ => b
  | None => {| h := set_dstHeader (h b) (ToLower header); err := err b |}
  end.

(** [func (b *Builder) TrustedIP(trusted ...*net.IPNet) *Builder] *)
Definition TrustedIP (b : Builder) (trusted_ : list net.IPNet) : Builder :=
  match err b with
  | Some _ => b
  | None => {| h := set_trusted (h b) (trusted (h b) ++ trusted_); err := err b |}
  end.

(** [func (b *Builder) Recursive(v bool) *Builder] *)
Definition Recursive (b : Builder) (v : bool) : Builder :=
  match err b with
  | Some _ => b
  | None => {| h := set_recursive (h b) v; err := err b |}
  end.

(** [func (h *Handler) Wrap(next http.Handler) http.Handler] *)
Definition Wrap (hd : Handler) (next_ : http.Request -> W) : Handler :=
  set_next hd (Some next_).

(** Methods of a built handler run in [M]: they may update the handler
    (its cache) and may panic, which is [None]. *)
Definition M (A : Type) : Type := Handler -> option (A * Handler).
Definition ret {A} (a : A) : M A := fun hd => Some (a, hd).
Definition bind {A B} (m : M A) (k : A -> M B) : M B :=
  fun hd => match m hd with Some (a, hd') => k a hd' | None => None end.
Definition panic {A} : M A := fun _ => None.
Definition get_handler : M Handler := fun hd => Some (hd, hd).

(** The range loop of [trustedIP] over the configured networks. *)
Fixpoint trustedIP_range (ip : net.IP) (ipstr : string) (trusted_ : list net.IPNet)
  : M bool :=
  match trusted_ with
  | [] => ret false
  | fromIP :: rest =>
      if net.Contains fromIP ip then
        fun hd => Some (true, set_cache hd ({[ ipstr ]} ∪ cache hd))
      else trustedIP_range ip ipstr rest
  end.

(** [func (h *Handler) trustedIP(ip net.IP, trusted []*net.IPNet) bool] *)
Definition trustedIP (ip : net.IP) (trusted_ : list net.IPNet) : M bool :=
  if Nat.eqb (length trusted_) 0 then ret true
  else
    let ipstr := net.String ip in
    bind get_handler (fun hd =>
    let cached := bool_decide (ipstr ∈ cache hd) in
    if cached then ret true
    else trustedIP_range ip ipstr trusted_).

(** [ips[i]]; an index out of range panics. *)
Definition ips_at (ips : list string) (i : nat) : M string :=
  match ips !! i with Some s => ret s | None => panic end.

(** The loop [for i := len(ips) - 1; i >= 0; i--] of [realIPFromXFF],
    entered with [k = i + 1], and the return after it. *)
Fixpoint realIPFromXFF_loop (ips : list string) (k : nat) : M string :=
  match k with
  | 0 => bind (ips_at ips 0) (fun s => ret (TrimSpace s))
  | S i =>
      bind (ips_at ips i) (fun s =>
      let ipStr := TrimSpace s in
      bind get_handler (fun hd =>
      bind (trustedIP (ParseIP ipStr) (trusted hd)) (fun t =>
      if negb t then ret ipStr else realIPFromXFF_loop ips i)))
  end.

(** [func (h *Handler) realIPFromXFF(xff string) string] *)
Definition realIPFromXFF (xff : string) : M string :=
  let ips := strings.Split xff "," in
  if Nat.eqb (length ips) 0 then ret ""
  else
    bind get_handler (fun hd =>
    if negb (recursive hd) then
      bind (ips_at ips (length ips - 1)) (fun s => ret (TrimSpace s))
    else realIPFromXFF_loop ips (length ips)).

(** [h.next.ServeHTTP(w, r)]; a nil [next] panics. *)
Definition next_ServeHTTP (r : http.Request) : M W :=
  fun hd => match next hd with Some f => Some (f r, hd) | None => None end.

(** [func (h *Handler) ServeHTTP(w http.ResponseWriter, r *http.Request)] *)
Definition ServeHTTP (r : http.Request) : M W :=
  let '(rawRemoteIP, _, _) := net.SplitHostPort (http.RemoteAddr r) in
  bind get_handler (fun hd =>
  bind (trustedIP (ParseIP rawRemoteIP) (trusted hd)) (fun t =>
  if negb t then
    let r := if negb (String.eqb rawRemoteIP "")
             then http.Header_Set r (dstHeader hd) rawRemoteIP else r in
    next_ServeHTTP r
  else
    bind (if String.eqb (srcHeader hd) HeaderXForwardedFor
          then realIPFromXFF (http.Get (http.Request_Header r) HeaderXForwardedFor)
          else ret (http.Get (http.Request_Header r) (srcHeader hd)))
         (fun realIP =>
    let realIP := if String.eqb realIP "" then rawRemoteIP else realIP in
    let r := if negb (String.eqb realIP "")
             then http.Header_Set r (dstHeader hd) realIP else r in
    next_ServeHTTP r))).

End realip.

Arguments Handler : clear implicits.
Arguments Builder : clear implicits.
Arguments M : clear implicits.

(** ** An executable library

  [ascii_lib] implements the four routines on ASCII text: white space is
  the six ASCII blanks, case is that of the letters [A-Z], header names
  are canonicalised as [net/textproto] does, and [ParseIP] follows
  [netip.ParseAddr] (zoned addresses are rejected by [net.ParseIP]). *)

Module ascii_lib.

Definition code (c : ascii) : N := N_of_ascii c.
Definition between (lo hi : string) (c : ascii) : bool :=
  match lo, hi with
  | String a _, String b _ => N.leb (code a) (code c) && N.leb (code c) (code b)
  | _, _ => false
  end.

Definition isSpace (c : ascii) : bool :=
  N.eqb (code c) 32 || (N.leb 9 (code c) && N.leb (code c) 13).

Fixpoint trimLeft (s : string) : string :=
  match s with
  | String c s' => if isSpace c then trimLeft s' else s
  | EmptyString => EmptyString
  end.

Fixpoint trimRight (s : string) : string :=
  match s with
  | String c s' =>
      match trimRight s' with
      | EmptyString => if isSpace c then EmptyString else String c EmptyString
      | t => String c t
      end
  | EmptyString => EmptyString
  end.

Definition TrimSpace (s : string) : string := trimRight (trimLeft s).

Definition lower (c : ascii) : ascii :=
  if between "A" "Z" c then ascii_of_N (code c + 32) else c.
Definition upper (c : ascii) : ascii :=
  if between "a" "z" c then ascii_of_N (code c - 32) else c.

Fixpoint ToLower (s : string) : string :=
  match s with
  | String c s' => String (lower c) (ToLower s')
  | EmptyString => EmptyString
  end.

(** [validHeaderFieldByte]: the token characters of RFC 7230. *)
Definition validHeaderFieldByte (c : ascii) : bool :=
  between "a" "z" c || between "A" "Z" c || between "0" "9" c
  || net.has_byte "!#$%&'*+-.^_`|~" c.

Fixpoint all_bytes (p : ascii -> bool) (s : string) : bool :=
  match s with
  | String c s' => p c && all_bytes p s'
  | EmptyString => true
  end.

Fixpoint canonical (up : bool) (s : string) : string :=
  match s with
  | String c s' =>
      let c := if up then upper c else lower c in
      String c (canonical (Ascii.eqb c "-") s')
  | EmptyString => EmptyString
  end.

Definition CanonicalMIMEHeaderKey (s : string) : string :=
  if all_bytes validHeaderFieldByte s then canonical true s else s.

Definition to_byte (n : N) : byte :=
  match Byte.of_N n with Some b => b | None => x00 end.

(** [parseIPv4Fields]: four decimal octets, no leading zero, no empty
    field. *)
Fixpoint parseIPv4Fields (s : string) (first prevdot : bool) (val : N) (digLen : nat)
    (fields : list N) : option (list N) :=
  match s with
  | EmptyString => if Nat.ltb (length fields) 3 then None else Some (fields ++ [val])%list
  | String c s' =>
      if between "0" "9" c then
        if Nat.eqb digLen 1 && N.eqb val 0 then None
        else
          let val := (val * 10 + (code c - 48))%N in
          if N.ltb 255 val then None
          else parseIPv4Fields s' false false val (S digLen) fields
      else if Ascii.eqb c "." then
        if first || String.eqb s' "" || prevdot then None
        else if Nat.eqb (length fields) 3 then None
        else parseIPv4Fields s' false true 0%N 0 (fields ++ [val])%list
      else None
  end.

Definition parseIPv4 (s : string) : option (list N) :=
  parseIPv4Fields s true false 0%N 0 [].

Definition hexval (c : ascii) : option N :=
  if between "0" "9" c then Some (code c - 48)%N
  else if between "a" "f" c then Some (code c - 87)%N
  else if between "A" "F" c then Some (code c - 55)%N
  else None.

(** The hex digits at the head of [s]: value, count and the rest; a fifth
    digit is an error. *)
Fixpoint hexrun (s : string) (off : nat) (acc : N) : option (N * nat * string) :=
  match s with
  | String c s' =>
      match hexval c with
      | Some v => if Nat.ltb 3 off then None else hexrun s' (S off) (acc * 16 + v)%N
      | None => Some (acc, off, s)
      end
  | EmptyString => Some (acc, off, s)
  end.

(** The group loop of [parseIPv6]; the result is the bytes read, the
    position of the ellipsis and the text left over. *)
Fixpoint parseIPv6_loop (fuel : nat) (s : string) (ip : list N) (ellipsis : option nat)
  : option (list N * option nat * string) :=
  match fuel with
  | 0 => Some (ip, ellipsis, s)
  | S fuel =>
      if Nat.leb 16 (length ip) then Some (ip, ellipsis, s)
      else
        match hexrun s 0 0%N with
        | None => None
        | Some (acc, off, rest) =>
            if Nat.eqb off 0 then None
            else if bool_decide (String.get 0 rest = Some "."%char) then
              if bool_decide (ellipsis = None) && negb (Nat.eqb (length ip) 12) then None
              else if Nat.ltb 16 (length ip + 4) then None
              else match parseIPv4 s with
                   | Some f => Some ((ip ++ f)%list, ellipsis, EmptyString)
                   | None => None
                   end
            else
              let ip := (ip ++ [N.shiftr acc 8; N.land acc 255])%list in
              match rest with
              | EmptyString => Some (ip, ellipsis, rest)
              | String c rest' =>
                  if negb (Ascii.eqb c ":") then None
                  else
                    match rest' with
                    | EmptyString => None
                    | String c' rest'' =>
                        if Ascii.eqb c' ":" then
                          match ellipsis with
                          | Some _ => None
                          | None =>
                              if String.eqb rest'' "" then Some (ip, Some (length ip), rest'')
                              else parseIPv6_loop fuel rest'' ip (Some (length ip))
                          end
                        else parseIPv6_loop fuel rest' ip ellipsis
                    end
              end
        end
  end.

Definition parseIPv6 (s : string) : option (list N) :=
  if net.has_byte s "%" then None
  else
    let '(s, ellipsis) :=
      match s with
      | String ":" (String ":" s') => (s', Some 0)
      | _ => (s, None)
      end in
    if bool_decide (ellipsis = Some 0) && String.eqb s "" then Some (repeat 0%N 16)
    else
      match parseIPv6_loop 9 s [] ellipsis with
      | None => None
      | Some (ip, ellipsis, s) =>
          if negb (String.eqb s "") then None
          else if Nat.ltb (length ip) 16 then
            match ellipsis with
            | None => None
            | Some e => Some (firstn e ip ++ repeat 0%N (16 - length ip) ++ skipn e ip)%list
            end
          else match ellipsis with Some _ => None | None => Some ip end
      end.

(** [netip.ParseAddr]: the first of [.], [:] and [%] picks the form. *)
Fixpoint ParseAddr_scan (whole s : string) : option (list N) :=
  match s with
  | EmptyString => None
  | String c s' =>
      if Ascii.eqb c "." then
        match parseIPv4 whole with
        | Some f => Some (repeat 0%N 10 ++ [255; 255]%N ++ f)%list
        | None => None
        end
      else if Ascii.eqb c ":" then parseIPv6 whole
      else if Ascii.eqb c "%" then None
      else ParseAddr_scan whole s'
  end.

Definition ParseIP (s : string) : net.IP :=
  match ParseAddr_scan s s with
  | Some b => map to_byte b
  | None => []
  end.

End ascii_lib.

#[export] Instance ascii_lib : GoLib := {|
  TrimSpace := ascii_lib.TrimSpace;
  ToLower := ascii_lib.ToLower;
  ParseIP := ascii_lib.ParseIP;
  CanonicalMIMEHeaderKey := ascii_lib.CanonicalMIMEHeaderKey
|}.

(** ** The design the handler implements

    Definitions written after sections 4.2 to 4.4 of the design document:
    what the handler is meant to compute, with no cache.  The theorems
    below compare the code above with them. *)

Section design.
Context {W : Type}.
Context `{GoLib}.

(** Some configured range contains the address. *)
Definition inRanges (ranges : list net.IPNet) (ip : net.IP) : bool :=
  existsb (fun n => net.Contains n ip) ranges.

(** Section 4.3: with no range configured every address is trusted. *)
Definition IsTrusted_spec (ranges : list net.IPNet) (ip : net.IP) : bool :=
  if Nat.eqb (length ranges) 0 then true else inRanges ranges ip.

(** Section 4.4: the last entry, or in recursive mode the first entry from
    the right that is not trusted and the leftmost one when all are. *)
Definition ResolveChain_spec (recursive_ : bool) (ranges : list net.IPNet)
    (entries : list string) : string :=
  match entries with
  | [] => ""
  | first :: _ =>
      if negb recursive_ then List.last entries ""
      else match List.find (fun e => negb (IsTrusted_spec ranges (ParseIP e)))
                           (rev entries) with
           | Some e => e
           | None => first
           end
  end.

(** Section 4.2, with the raw peer address being the host that
    [net.SplitHostPort] returns. *)
Definition Resolve_spec (hd : Handler W) (peerAddrString : string)
    (headers : http.Header) : string :=
  let raw := (net.SplitHostPort peerAddrString).1.1 in
  if negb (IsTrusted_spec (trusted hd) (ParseIP raw)) then raw
  else
    let candidate :=
      if String.eqb (srcHeader hd) HeaderXForwardedFor
      then ResolveChain_spec (recursive hd) (trusted hd)
             (map TrimSpace (strings.Split (http.Get headers HeaderXForwardedFor) ","))
      else http.Get headers (srcHeader hd) in
    if String.eqb candidate "" then raw else candidate.

(** The request handed on: the destination header is written when the
    address is not empty. *)
Definition forward (hd : Handler W) (r : http.Request) (v : string) : http.Request :=
  if negb (String.eqb v "") then http.Header_Set r (dstHeader hd) v else r.

(** The cache invariant: every key is the text of an address that some
    configured range contains.  It holds of the empty cache a built handler
    starts with and every request keeps it. *)
Definition cache_sound (hd : Handler W) : Prop :=
  forall ip, net.String ip ∈ cache hd -> inRanges (trusted hd) ip = true.

(** Serving a sequence of requests, one after the other. *)
Fixpoint serve_all (rs : list http.Request) (hd : Handler W) : option (Handler W) :=
  match rs with
  | [] => Some hd
  | r :: rs' =>
      match ServeHTTP r hd with
      | Some (_, hd') => serve_all rs' hd'
      | None => None
      end
  end.

(** The source-header switch of [ServeHTTP]. *)
Definition candidate (hd : Handler W) (r : http.Request) : M W string :=
  if String.eqb (srcHeader hd) HeaderXForwardedFor
  then realIPFromXFF (http.Get (http.Request_Header r) HeaderXForwardedFor)
  else ret (http.Get (http.Request_Header r) (srcHeader hd)).

(** What the loop of [realIPFromXFF] returns when entered at [k]. *)
Definition scan (ranges : list net.IPNet) (ips : list string) (k : nat) : string :=
  match List.find (fun e => negb (IsTrusted_spec ranges (ParseIP e)))
                  (rev (map TrimSpace (take k ips))) with
  | Some e => e
  | None => TrimSpace (List.hd "" ips)
  end.

End design.

(** A network as [net.ParseCIDR] returns it: four address bytes with a
    four-byte mask, or sixteen with sixteen. *)
Definition CIDR_shape (n : net.IPNet) : bool :=
  (Nat.eqb (length (net.IPNet_IP n)) 4 && Nat.eqb (length (net.Mask n)) 4)
  || (Nat.eqb (length (net.IPNet_IP n)) 16 && Nat.eqb (length (net.Mask n)) 16).

(** The same request from another peer address. *)
Definition with_RemoteAddr (r : http.Request) (a : string) : http.Request :=
  {| http.RemoteAddr := a; http.Request_Header := http.Request_Header r |}.

(** Text free of colons and brackets. *)
Definition plain_byte (c : ascii) : bool :=
  negb (Ascii.eqb c ":" || Ascii.eqb c "[" || Ascii.eqb c "]").

(** The address [Contains] compares: the four-byte form when there is one. *)
Definition key (ip : net.IP) : net.IP :=
  let x := net.To4 ip in if Nat.eqb (length x) 0 then ip else x.

Abbreviation all_bytes := ascii_lib.all_bytes.

Definition plain (s : string) : bool := all_bytes plain_byte s.

(** ** Reading the text forms back

    Decoders for the output of [appendDecimal], [appendHex] and [string6];
    they exist to show that [net.String] loses nothing [Contains] reads. *)

Module readback.

Definition nonempty (s : string) : bool := negb (String.eqb s "").

Fixpoint undec (s : string) (acc : N) : N :=
  match s with
  | String c s' => undec s' (acc * 10 + (N_of_ascii c - 48))%N
  | EmptyString => acc
  end.

Fixpoint unhex (s : string) (acc : N) : N :=
  match s with
  | String c s' =>
      unhex s' (acc * 16 + match ascii_lib.hexval c with Some v => v | None => 0 end)%N
  | EmptyString => acc
  end.

Fixpoint take_nonempty (l : list string) : list string :=
  match l with
  | x :: l' => if nonempty x then x :: take_nonempty l' else []
  | [] => []
  end.

Fixpoint drop_nonempty (l : list string) : list string :=
  match l with
  | x :: l' => if nonempty x then drop_nonempty l' else l
  | [] => []
  end.

(** The eight groups of an IPv6 text: the fields before the empty one, the
    zeros it stands for, the fields after it. *)
Definition groups (s : string) : list N :=
  let f := strings.Split s ":" in
  let pre := take_nonempty f in
  let rest := drop_nonempty f in
  let post := List.filter nonempty rest in
  match rest with
  | [] => map (fun x => unhex x 0%N) pre
  | _ => (map (fun x => unhex x 0%N) pre ++ repeat 0%N (8 - length pre - length post)
          ++ map (fun x => unhex x 0%N) post)%list
  end.

Definition is_dec (c : ascii) : bool := ascii_lib.between "0" "9" c.
Definition is_hex (c : ascii) : bool := is_dec c || ascii_lib.between "a" "f" c.
Definition is_dec_dot (c : ascii) : bool := is_dec c || Ascii.eqb c ".".
Definition is_hex_colon (c : ascii) : bool := is_hex c || Ascii.eqb c ":".

(** The checks run over every octet and every group. *)
Definition dec_ok (n : N) : bool :=
  N.eqb (undec (net.appendDecimal n) 0) n && all_bytes is_dec (net.appendDecimal n).

Definition hex_ok (n : N) : bool :=
  N.eqb (unhex (net.appendHex n) 0) n && all_bytes is_hex (net.appendHex n)
  && nonempty (net.appendHex n).

Definition zeroRun_ok (z : list bool) : bool :=
  let '(zs, ze) := net.zeroRun z in
  implb (Nat.ltb zs ze)
        (Nat.leb ze 8 && forallb (fun b => b) (firstn (ze - zs) (skipn zs z))).

Definition dec_byte (b : byte) : string := net.appendDecimal (Byte.to_N b).

Definition hex_text (x : string) : Prop :=
  all_bytes is_hex x = true /\ nonempty x = true.

Definition hex_group (x : N) : Prop := hex_ok x = true.

End readback.

(** The four shapes of an address and the text each has. *)
Inductive IP_class (ip : net.IP) : Prop :=
  | class_nil : net.String ip = "<nil>" -> key ip = [] -> IP_class ip
  | class_odd t : net.String ip = String "?" t ->
      (forall n, net.Contains n ip = false) -> IP_class ip
  | class_v4 : net.String ip = net.string4 (key ip) -> length (key ip) = 4 -> IP_class ip
  | class_v6 : net.String ip = net.string6 (key ip) -> length (key ip) = 16 -> IP_class ip.

(** ** The repository's test table *)

Module fixtures.

Definition CIDR (ip mask : list N) : net.IPNet :=
  {| net.IPNet_IP := map ascii_lib.to_byte ip; net.Mask := map ascii_lib.to_byte mask |}.
Definition net_192_168 : net.IPNet := CIDR [192; 168; 0; 0]%N [255; 255; 0; 0]%N.
Definition net_127_0_0_1 : net.IPNet := CIDR [127; 0; 0; 1]%N [255; 255; 255; 255]%N.

(** The test's wrapped handler prints the destination header. *)
Definition echo (r : http.Request) : string :=
  http.Get (http.Request_Header r) HeaderXRealIP.

Definition mustBuild (b : Builder string) : Handler string :=
  match (Build b).1.1 with
  | Some hd => Wrap hd echo
  | None => Wrap (h b) echo
  end.

Definition request (addr : string) (headers : list (string * string)) : http.Request :=
  {| http.RemoteAddr := addr;
     http.Request_Header := foldr (fun kv m => http.Set_ m kv.1 kv.2) ∅ headers |}.

Definition default_handler : Handler string := mustBuild New.
Definition lan_only : Handler string := mustBuild (TrustedIP New [net_192_168]).
Definition xff_plain : Handler string :=
  mustBuild (SourceHeader New HeaderXForwardedFor).
Definition xff_recursive : Handler string :=
  mustBuild (Recursive (TrustedIP (SourceHeader New HeaderXForwardedFor)
                          [net_127_0_0_1; net_192_168]) true).
Definition xff_last : Handler string :=
  mustBuild (SourceHeader (TrustedIP New [net_127_0_0_1; net_192_168])
               HeaderXForwardedFor).
Definition xff_lan_only : Handler string :=
  mustBuild (SourceHeader (TrustedIP New [net_192_168]) HeaderXForwardedFor).
Definition xff_trust_all : Handler string :=
  mustBuild (Recursive (SourceHeader New HeaderXForwardedFor) true).
Definition loopback : string := "127.0.0.1:54321".
Definition chain : string := "1.2.3.4, 1.1.1.1, 192.168.0.1".

End fixtures.

(** ** Sequences of builder calls

    The builder is driven by chained calls; [call] names one of the four
    setters with its argument, so that statements can range over the ways
    of configuring a handler.  As in [Handler], the ranges of a [TrustedIP]
    call are the networks its pointers lead to: a call passing a nil
    pointer, which Go accepts and [trustedIP] would later dereference, is
    not among them. *)

Inductive call :=
  | CallSourceHeader (name : string)
  | CallDestinationHeader (header : string)
  | CallTrustedIP (trusted_ : list net.IPNet)
  | CallRecursive (v : bool).

(** The field a call assigns. *)
Definition call_field (c : call) : nat :=
  match c with
  | CallSourceHeader _ => 0
  | CallDestinationHeader _ => 1
  | CallTrustedIP _ => 2
  | CallRecursive _ => 3
  end.

(** The ranges the [TrustedIP] calls pass, in call order. *)
Definition trusted_args (cs : list call) : list net.IPNet :=
  flat_map (fun c => match c with CallTrustedIP l => l | _ => [] end) cs.

(** The flags the [Recursive] calls pass. *)
Definition recursive_args (cs : list call) : list bool :=
  flat_map (fun c => match c with CallRecursive v => [v] | _ => [] end) cs.

Section calls.
Context {W : Type}.
Context `{GoLib}.

Definition do_call (b : Builder W) (c : call) : Builder W :=
  match c with
  | CallSourceHeader name => SourceHeader b name
  | CallDestinationHeader header => DestinationHeader b header
  | CallTrustedIP trusted_ => TrustedIP b trusted_
  | CallRecursive v => Recursive b v
  end.

Definition do_calls (cs : list call) (b : Builder W) : Builder W :=
  fold_left do_call cs b.

(** A [SourceHeader] call naming the [Forwarded] header. *)
Definition rejected (c : call) : bool :=
  match c with
  | CallSourceHeader name => String.eqb (ToLower (TrimSpace name)) headerForwarded
  | _ => false
  end.

(** The names the [SourceHeader] and [DestinationHeader] calls store. *)
Definition source_args (cs : list call) : list string :=
  flat_map (fun c => match c with
                     | CallSourceHeader name => [ToLower (TrimSpace name)]
                     | _ => []
                     end) cs.

Definition destination_args (cs : list call) : list string :=
  flat_map (fun c => match c with
                     | CallDestinationHeader header => [ToLower header]
                     | _ => []
                     end) cs.

End calls.

(** A byte that may stand between the brackets of [[host]:port], the form
    in which [net/http] gives the address of an IPv6 peer. *)
Definition unbracketed_byte (c : ascii) : bool :=
  negb (Ascii.eqb c "[" || Ascii.eqb c "]").

(** A configuration that sets some fields twice. *)
Definition client_ip_calls : list call :=
  [CallSourceHeader "X-Forwarded-For"; CallTrustedIP [fixtures.net_127_0_0_1];
   CallRecursive true; CallTrustedIP [fixtures.net_192_168];
   CallSourceHeader " X-Client-IP "].

(** ** What serving may touch *)

Section footprint.
Context {W : Type}.
Context `{GoLib}.

(** The texts [ServeHTTP] may pass to [trustedIP]: the raw peer address and
    the trimmed entries of the [X-Forwarded-For] header. *)
Definition inspected (r : http.Request) : list string :=
  (net.SplitHostPort (http.RemoteAddr r)).1.1
  :: map TrimSpace (strings.Split (http.Get (http.Request_Header r) HeaderXForwardedFor) ",").

(** A key the handler may add to its cache while it looks at the texts
    [es]: the text form of the address one of them parses to, which some
    configured range contains. *)
Definition cacheable (hd : Handler W) (es : list string) (s : string) : Prop :=
  exists e, e ∈ es /\ s = net.String (ParseIP e)
            /\ inRanges (trusted hd) (ParseIP e) = true.

(** The steps before [h.next.ServeHTTP] run the same whatever is wrapped. *)
Definition next_blind {A} (m : M W A) : Prop :=
  forall hd n, m (set_next hd n)
               = match m hd with
                 | Some (a, hd') => Some (a, set_next hd' n)
                 | None => None
                 end.

End footprint.

(** * Proofs *)

(** ** Text and list facts *)

Import readback.

Lemma append_cons x (a b : string) : String x a +:+ b = String x (a +:+ b).
Proof. reflexivity. Qed.

Lemma append_nil_l (a : string) : "" +:+ a = a.
Proof. reflexivity. Qed.

Lemma append_assoc (a b c : string) : (a +:+ b) +:+ c = a +:+ (b +:+ c).
Proof. induction a as [|x a IH]; [done | by rewrite !append_cons, IH]. Qed.

Lemma append_nil_r (a : string) : a +:+ "" = a.
Proof. induction a as [|x a IH]; [done | by rewrite append_cons, IH]. Qed.

Lemma all_bytes_app p a b : all_bytes p (a +:+ b) = all_bytes p a && all_bytes p b.
Proof.
  induction a as [|x a IH]; [done |].
  rewrite append_cons. simpl. rewrite IH. by destruct (p x).
Qed.

Lemma has_byte_app a b c : net.has_byte (a +:+ b) c = net.has_byte a c || net.has_byte b c.
Proof.
  unfold net.has_byte. induction a as [|x a IH]; [done |].
  rewrite append_cons. simpl. destruct (Ascii.eqb x c); [done |].
  destruct (strings.IndexByte (a +:+ b) c), (strings.IndexByte a c); simpl in *; try done.
Qed.

Lemma all_bytes_no_byte p s c : all_bytes p s = true -> p c = false -> net.has_byte s c = false.
Proof.
  unfold net.has_byte. induction s as [|x s IH]; simpl; [done |].
  intros [Hx Hs]%andb_true_iff Hc. destruct (Ascii.eqb_spec x c) as [->|_]; [congruence |].
  specialize (IH Hs Hc). by destruct (strings.IndexByte s c).
Qed.

Lemma Split_nonnil s c : strings.Split s c <> [].
Proof. induction s as [|x s IH]; simpl; [done |]. destruct (Ascii.eqb x c); [done |]. by destruct (strings.Split s c). Qed.

Lemma Split_no_sep s c : net.has_byte s c = false -> strings.Split s c = [s].
Proof.
  unfold net.has_byte. induction s as [|x s IH]; simpl; [done |].
  destruct (Ascii.eqb x c); [done |].
  destruct (strings.IndexByte s c); [done |]. intros _. by rewrite IH.
Qed.

Lemma Split_app a b c :
  strings.Split (a +:+ String c b) c = (strings.Split a c ++ strings.Split b c)%list.
Proof.
  induction a as [|x a IH]; [rewrite append_nil_l | rewrite append_cons]; simpl.
  - by rewrite Ascii.eqb_refl.
  - destruct (Ascii.eqb x c); [by rewrite IH |].
    rewrite IH. pose proof (Split_nonnil a c). by destruct (strings.Split a c).
Qed.

Lemma Split_join (l : list string) (c : ascii) :
  l <> [] -> Forall (fun x => net.has_byte x c = false) l ->
  strings.Split (net.join (String c "") l) c = l.
Proof.
  induction l as [|x l IH]; [done |]. intros _ Hall.
  apply Forall_cons in Hall as [Hx Hl].
  destruct l as [|y l]; simpl.
  - by apply Split_no_sep.
  - change (strings.Split (x +:+ String c (net.join (String c "") (y :: l))) c = x :: y :: l).
    rewrite Split_app, Split_no_sep by done. simpl. f_equal. by apply IH.
Qed.

Lemma forallb_upto (P : N -> bool) (k : nat) :
  forallb P (map N.of_nat (seq 0 k)) = true -> forall n, (n < N.of_nat k)%N -> P n = true.
Proof.
  intros Hall n Hn. rewrite forallb_forall in Hall. apply Hall.
  apply in_map_iff. exists (N.to_nat n). split; [lia |]. apply in_seq. lia.
Qed.

Lemma dec_ok_all n : (n < 256)%N -> dec_ok n = true.
Proof. apply (forallb_upto dec_ok 256). vm_compute. reflexivity. Qed.

Lemma hex_ok_all hi lo : (hi < 256)%N -> (lo < 256)%N -> hex_ok (256 * hi + lo) = true.
Proof.
  intros Hhi Hlo.
  assert (forallb (fun hi => forallb (fun lo => hex_ok (256 * hi + lo))
                               (map N.of_nat (seq 0 256)))
            (map N.of_nat (seq 0 256)) = true) as Hall by (vm_compute; reflexivity).
  pose proof (forallb_upto _ 256 Hall hi Hhi) as Hrow.
  exact (forallb_upto (fun lo => hex_ok (256 * hi + lo)) 256 Hrow lo Hlo).
Qed.

Lemma to_N_inj (a b : byte) : Byte.to_N a = Byte.to_N b -> a = b.
Proof.
  intros E. pose proof (Byte.of_to_N a) as Ha. rewrite E, Byte.of_to_N in Ha. congruence.
Qed.

Lemma to_N_lt (a : byte) : (Byte.to_N a < 256)%N.
Proof. pose proof (Byte.to_N_bounded a). lia. Qed.

Lemma dec_byte_inj a b : dec_byte a = dec_byte b -> a = b.
Proof.
  unfold dec_byte. intros E. apply to_N_inj.
  pose proof (dec_ok_all _ (to_N_lt a)) as Ha. pose proof (dec_ok_all _ (to_N_lt b)) as Hb.
  unfold dec_ok in *. apply andb_true_iff in Ha as [Ha _], Hb as [Hb _].
  apply N.eqb_eq in Ha, Hb. congruence.
Qed.

Lemma dec_byte_bytes b : all_bytes is_dec (dec_byte b) = true.
Proof.
  pose proof (dec_ok_all _ (to_N_lt b)) as Hb. unfold dec_ok in Hb.
  by apply andb_true_iff in Hb as [_ Hb].
Qed.

Lemma map_inj_eq {A B} (f : A -> B) (l l' : list A) :
  (forall a b, f a = f b -> a = b) -> map f l = map f l' -> l = l'.
Proof.
  intros Hf. revert l'. induction l as [|x l IH]; intros [|y l']; simpl; try done.
  intros [= E1 E2]. f_equal; auto.
Qed.

Lemma all_bytes_join p sep l :
  all_bytes p sep = true -> Forall (fun x => all_bytes p x = true) l ->
  all_bytes p (net.join sep l) = true.
Proof.
  intros Hsep. induction 1 as [|x l Hx Hl IH]; [done |].
  destruct l as [|y l]; [done |].
  change (all_bytes p (x +:+ sep +:+ net.join sep (y :: l)) = true).
  rewrite !all_bytes_app, Hx, Hsep, IH. done.
Qed.

Lemma string4_Split (p : list byte) :
  p <> [] -> strings.Split (net.string4 p) "." = map dec_byte p.
Proof.
  intros Hp. unfold net.string4. apply Split_join.
  - by destruct p.
  - apply Forall_forall. intros x [b [<- _]]%list_elem_of_In%in_map_iff.
    apply (all_bytes_no_byte is_dec); [apply dec_byte_bytes | done].
Qed.

Lemma string4_inj (p q : list byte) :
  p <> [] -> q <> [] -> net.string4 p = net.string4 q -> p = q.
Proof.
  intros Hp Hq E. apply (map_inj_eq dec_byte); [apply dec_byte_inj |].
  by rewrite <- !string4_Split, E.
Qed.

Lemma all_bytes_weaken (p q : ascii -> bool) s :
  (forall c, p c = true -> q c = true) -> all_bytes p s = true -> all_bytes q s = true.
Proof.
  intros Hpq. induction s as [|x s IH]; simpl; [done |].
  intros [Hx Hs]%andb_true_iff. by rewrite (Hpq _ Hx), IH.
Qed.

Lemma string4_bytes (p : list byte) : all_bytes is_dec_dot (net.string4 p) = true.
Proof.
  unfold net.string4. apply all_bytes_join; [done |].
  apply Forall_forall. intros x [b [<- _]]%list_elem_of_In%in_map_iff.
  apply (all_bytes_weaken is_dec); [| apply dec_byte_bytes].
  intros c Hc. unfold is_dec_dot. by rewrite Hc.
Qed.

Lemma zeroRun_ok_all (z : list bool) : length z = 8 -> zeroRun_ok z = true.
Proof.
  intros Hz. do 8 (destruct z as [|? z]; [discriminate Hz |]).
  destruct z; [clear Hz | discriminate Hz].
  repeat match goal with b : bool |- _ => destruct b end; vm_compute; reflexivity.
Qed.

Lemma hex_text_no_colon x : hex_text x -> net.has_byte x ":" = false.
Proof. intros [Hx _]. by apply (all_bytes_no_byte is_hex). Qed.

Lemma Split_join_hex (X : list string) :
  Forall hex_text X ->
  strings.Split (net.join ":" X) ":" = match X with [] => [""] | _ => X end.
Proof.
  intros HX. destruct X as [|x X]; [done |].
  apply Split_join; [done |]. eapply Forall_impl; [exact HX |]. apply hex_text_no_colon.
Qed.

Lemma take_nonempty_all (X : list string) :
  Forall hex_text X -> take_nonempty X = X /\ drop_nonempty X = [] /\ List.filter nonempty X = X.
Proof.
  induction 1 as [|x X [_ Hx] _ (IH1 & IH2 & IH3)]; [done |].
  simpl. rewrite Hx, IH1, IH2, IH3. done.
Qed.

Lemma take_nonempty_app (X rest : list string) :
  Forall hex_text X ->
  take_nonempty (X ++ "" :: rest) = X /\ drop_nonempty (X ++ "" :: rest) = "" :: rest.
Proof.
  induction 1 as [|x X [_ Hx] _ [IH1 IH2]]; [done |].
  simpl. rewrite Hx, IH1, IH2. done.
Qed.

Lemma fields_pre (X rest : list string) :
  Forall hex_text X ->
  let f := (strings.Split (net.join ":" X) ":" ++ "" :: rest)%list in
  take_nonempty f = X /\ drop_nonempty f <> [] /\
  List.filter nonempty (drop_nonempty f) = List.filter nonempty rest.
Proof.
  intros HX. rewrite Split_join_hex by done. destruct X as [|x X]; [done |].
  cbv iota zeta. destruct (take_nonempty_app (x :: X) rest HX) as [-> ->]. done.
Qed.

Lemma fields_post (X : list string) :
  Forall hex_text X -> List.filter nonempty (strings.Split (net.join ":" X) ":") = X.
Proof.
  intros HX. rewrite Split_join_hex by done. destruct X as [|x X]; [done |].
  by apply take_nonempty_all.
Qed.

Lemma hex_group_text x : hex_group x -> hex_text (net.appendHex x).
Proof.
  unfold hex_group, hex_ok. intros [[_ H1]%andb_true_iff H2]%andb_true_iff. by split.
Qed.

Lemma hex_group_unhex x : hex_group x -> unhex (net.appendHex x) 0 = x.
Proof.
  unfold hex_group, hex_ok. intros [[H0 _]%andb_true_iff _]%andb_true_iff. by apply N.eqb_eq.
Qed.

Lemma hex_groups_text (g : list N) : Forall hex_group g -> Forall hex_text (map net.appendHex g).
Proof. induction 1; constructor; auto using hex_group_text. Qed.

Lemma hex_groups_unhex (g : list N) :
  Forall hex_group g -> map (fun x => unhex x 0%N) (map net.appendHex g) = g.
Proof. induction 1 as [|x g Hx _ IH]; simpl; [done |]. by rewrite hex_group_unhex, IH. Qed.

Lemma groups_plain (g : list N) :
  g <> [] -> Forall hex_group g -> groups (net.join ":" (map net.appendHex g)) = g.
Proof.
  intros Hg HG. unfold groups. pose proof (hex_groups_text g HG) as HT.
  rewrite Split_join_hex by done.
  destruct (map net.appendHex g) as [|x X] eqn:E; [by destruct g |].
  destruct (take_nonempty_all _ HT) as (-> & -> & _). rewrite <- E. by apply hex_groups_unhex.
Qed.

Lemma groups_run (P Q : list N) :
  Forall hex_group P -> Forall hex_group Q ->
  groups (net.join ":" (map net.appendHex P) +:+ "::" +:+ net.join ":" (map net.appendHex Q))
  = (P ++ repeat 0%N (8 - length P - length Q) ++ Q)%list.
Proof.
  intros HP HQ. unfold groups.
  pose proof (hex_groups_text P HP) as HTP. pose proof (hex_groups_text Q HQ) as HTQ.
  change ("::" +:+ ?s) with (String ":" ("" +:+ String ":" s)).
  rewrite !Split_app. change (strings.Split "" ":") with [""].
  change ([""] ++ ?l)%list with ("" :: l).
  destruct (fields_pre _ (strings.Split (net.join ":" (map net.appendHex Q)) ":") HTP)
    as (-> & Hne & ->).
  rewrite fields_post by done.
  destruct (drop_nonempty _) as [|? ?]; [done |].
  rewrite !hex_groups_unhex by done. by rewrite !length_map.
Qed.

Lemma last_lookup_default {A} (l : list A) (x d : A) :
  l !! (length l - 1) = Some x -> List.last l d = x.
Proof.
  induction l as [|a l IH]; [done |].
  destruct l as [|b l]; simpl in *; [by intros [= ->] |].
  rewrite Nat.sub_0_r in *. intros Hx. by apply IH.
Qed.

Lemma v6u16s_cons2 hi lo p :
  net.v6u16s (hi :: lo :: p) = (256 * Byte.to_N hi + Byte.to_N lo)%N :: net.v6u16s p.
Proof. reflexivity. Qed.

Lemma v6u16s_groups_aux (n : nat) : forall p, length p <= n -> Forall hex_group (net.v6u16s p).
Proof.
  induction n as [|n IH]; intros p Hp.
  - destruct p; [constructor | simpl in Hp; lia].
  - destruct p as [|hi [|lo p]]; try constructor.
    + apply hex_ok_all; apply to_N_lt.
    + apply IH. simpl in Hp. lia.
Qed.

Lemma v6u16s_groups p : Forall hex_group (net.v6u16s p).
Proof. by apply (v6u16s_groups_aux (length p)). Qed.

Lemma v6u16s_length_aux (n : nat) : forall p, length p = 2 * n -> length (net.v6u16s p) = n.
Proof.
  induction n as [|n IH]; intros p Hp.
  - by destruct p.
  - destruct p as [|hi [|lo p]]; simpl in Hp; try lia.
    rewrite v6u16s_cons2. simpl. f_equal. apply IH. lia.
Qed.

Lemma v6u16s_inj_aux (n : nat) : forall p q,
  length p = 2 * n -> length q = 2 * n -> net.v6u16s p = net.v6u16s q -> p = q.
Proof.
  induction n as [|n IH]; intros p q Hp Hq E.
  - by destruct p, q.
  - destruct p as [|a [|b p]]; simpl in Hp; try lia.
    destruct q as [|c [|d q]]; simpl in Hq; try lia.
    rewrite !v6u16s_cons2 in E. injection E as E1 E2.
    pose proof (to_N_lt a). pose proof (to_N_lt b). pose proof (to_N_lt c). pose proof (to_N_lt d).
    assert (Byte.to_N a = Byte.to_N c) as ->%to_N_inj by lia.
    assert (Byte.to_N b = Byte.to_N d) as ->%to_N_inj by lia.
    do 2 f_equal. apply IH; [lia | lia | done].
Qed.

Lemma all_true_zeros (g : list N) :
  forallb (fun b => b) (map (N.eqb 0) g) = true -> g = repeat 0%N (length g).
Proof.
  induction g as [|x g IH]; simpl; [done |].
  intros [Hx Hg]%andb_true_iff. destruct x; [| discriminate Hx]. f_equal. by apply IH.
Qed.

Lemma zeroRun_split (g : list N) zs ze :
  length g = 8 -> net.zeroRun (map (N.eqb 0) g) = (zs, ze) -> Nat.ltb zs ze = true ->
  g = (firstn zs g ++ repeat 0%N (ze - zs) ++ skipn ze g)%list /\ ze <= 8.
Proof.
  intros Hg Hrun Hlt.
  pose proof (zeroRun_ok_all (map (N.eqb 0) g)) as Hok. rewrite length_map in Hok.
  specialize (Hok Hg). unfold zeroRun_ok in Hok. rewrite Hrun, Hlt in Hok. simpl in Hok.
  apply andb_true_iff in Hok as [Hze Hz]. apply Nat.leb_le in Hze. apply Nat.ltb_lt in Hlt.
  split; [| done].
  rewrite skipn_map, firstn_map in Hz. apply all_true_zeros in Hz.
  rewrite length_firstn, length_skipn in Hz.
  replace (Nat.min (ze - zs) (length g - zs)) with (ze - zs) in Hz by lia.
  rewrite <- Hz.
  rewrite <- (firstn_skipn zs g) at 1. f_equal.
  rewrite <- (firstn_skipn (ze - zs) (skipn zs g)) at 1. f_equal.
  rewrite skipn_skipn. f_equal. lia.
Qed.

Lemma groups_string6 (p : list byte) :
  length p = 16 -> groups (net.string6 p) = net.v6u16s p.
Proof.
  intros Hp. unfold net.string6.
  pose proof (v6u16s_groups p) as HG.
  pose proof (v6u16s_length_aux 8 p Hp) as Hlen.
  destruct (net.zeroRun _) as [zs ze] eqn:Hrun.
  destruct (Nat.ltb zs ze) eqn:Hlt.
  - destruct (zeroRun_split _ _ _ Hlen Hrun Hlt) as [Hsplit Hze].
    apply Nat.ltb_lt in Hlt.
    rewrite groups_run.
    + rewrite length_firstn, length_skipn, Hlen.
      replace (8 - Nat.min zs 8 - (8 - ze)) with (ze - zs) by lia. by rewrite <- Hsplit.
    + by apply Forall_take.
    + by apply Forall_drop.
  - apply groups_plain; [| done]. by destruct (net.v6u16s p).
Qed.

Lemma string6_inj (p q : list byte) :
  length p = 16 -> length q = 16 -> net.string6 p = net.string6 q -> p = q.
Proof.
  intros Hp Hq E. apply (v6u16s_inj_aux 8); [done | done |].
  by rewrite <- !groups_string6, E.
Qed.

Lemma is_hex_colon_of_hex c : is_hex c = true -> is_hex_colon c = true.
Proof. intros Hc. unfold is_hex_colon. by rewrite Hc. Qed.

Lemma hex_join_bytes (g : list N) :
  Forall hex_group g -> all_bytes is_hex_colon (net.join ":" (map net.appendHex g)) = true.
Proof.
  intros HG. apply all_bytes_join; [done |].
  eapply Forall_impl; [exact (hex_groups_text g HG) |].
  intros x [Hx _]. by apply (all_bytes_weaken is_hex), Hx; apply is_hex_colon_of_hex.
Qed.

Lemma string6_bytes (p : list byte) : all_bytes is_hex_colon (net.string6 p) = true.
Proof.
  unfold net.string6. pose proof (v6u16s_groups p) as HG.
  destruct (net.zeroRun _) as [zs ze]. destruct (Nat.ltb zs ze).
  - rewrite !all_bytes_app, !hex_join_bytes; [done | by apply Forall_drop | by apply Forall_take].
  - by apply hex_join_bytes.
Qed.

Lemma string6_colon (p : list byte) : length p = 16 -> net.has_byte (net.string6 p) ":" = true.
Proof.
  intros Hp. unfold net.string6. pose proof (v6u16s_length_aux 8 p Hp) as Hlen.
  destruct (net.zeroRun _) as [zs ze]. destruct (Nat.ltb zs ze).
  - rewrite !has_byte_app. change (net.has_byte "::" ":") with true. by rewrite orb_true_r.
  - destruct (net.v6u16s p) as [|x [|y g]]; try discriminate Hlen.
    change (net.join ":" (map net.appendHex (x :: y :: g)))
      with (net.appendHex x +:+ ":" +:+ net.join ":" (map net.appendHex (y :: g))).
    rewrite !has_byte_app. change (net.has_byte ":" ":") with true. by rewrite orb_true_r.
Qed.

Lemma Contains_key n ip ip' : key ip = key ip' -> net.Contains n ip = net.Contains n ip'.
Proof.
  intros E. unfold net.Contains. destruct (net.networkNumberAndMask n) as [nn m].
  fold (key ip). fold (key ip'). by rewrite E.
Qed.

Lemma To4_length ip : length (net.To4 ip) = 0 \/ length (net.To4 ip) = 4.
Proof.
  unfold net.To4. destruct (Nat.eqb_spec (length ip) net.IPv4len) as [E|_]; [by right |].
  destruct (Nat.eqb_spec (length ip) net.IPv6len) as [E|_]; simpl; [| by left].
  destruct (_ && _ && _); [right | by left].
  rewrite length_firstn, length_skipn, E. done.
Qed.

Lemma networkNumber_length n :
  let nn := (net.networkNumberAndMask n).1 in
  length nn = 0 \/ length nn = 4 \/ length nn = 16.
Proof.
  unfold net.networkNumberAndMask.
  pose proof (To4_length (net.IPNet_IP n)) as HT.
  repeat match goal with
         | |- context [Nat.eqb ?a ?b] => destruct (Nat.eqb_spec a b)
         end; simpl; try lia.
  all: unfold net.IPv4len, net.IPv6len in *; simpl in *; try lia.
Qed.

Lemma Contains_length n ip :
  net.Contains n ip = true ->
  length (key ip) = 0 \/ length (key ip) = 4 \/ length (key ip) = 16.
Proof.
  unfold net.Contains. pose proof (networkNumber_length n) as Hnn.
  destruct (net.networkNumberAndMask n) as [nn m]. simpl in Hnn. fold (key ip).
  destruct (Nat.eqb_spec (length (key ip)) (length nn)) as [->|_]; simpl; [done | discriminate].
Qed.

Lemma IP_classify ip : IP_class ip.
Proof.
  destruct (Nat.eq_dec (length ip) 0) as [E0|N0].
  { apply class_nil; [unfold net.String; by rewrite E0 | by destruct ip]. }
  destruct (Nat.eq_dec (length ip) 4) as [E4|N4].
  { assert (net.To4 ip = ip) as HT by (unfold net.To4; by rewrite E4).
    assert (key ip = ip) as HK by (unfold key; by rewrite HT, E4).
    apply class_v4; rewrite HK; [| done].
    unfold net.String. by rewrite HT, E4. }
  destruct (Nat.eq_dec (length ip) 16) as [E6|N6].
  { destruct (To4_length ip) as [ET|ET].
    - assert (key ip = ip) as HK by (unfold key; by rewrite ET).
      apply class_v6; rewrite HK; [| done].
      unfold net.String. by rewrite ET, E6.
    - assert (key ip = net.To4 ip) as HK by (unfold key; by rewrite ET).
      apply class_v4; rewrite HK; [| done].
      unfold net.String. by rewrite ET, E6. }
  assert (net.To4 ip = []) as HT.
  { unfold net.To4. destruct (Nat.eqb_spec (length ip) net.IPv4len); [done |].
    destruct (Nat.eqb_spec (length ip) net.IPv6len); [done | done]. }
  assert (key ip = ip) as HK by (unfold key; by rewrite HT).
  apply (class_odd _ (net.hexString ip)).
  - unfold net.String.
    destruct (Nat.eqb_spec (length ip) 0); [done |].
    destruct (Nat.eqb_spec (length ip) net.IPv4len); [done |].
    destruct (Nat.eqb_spec (length ip) net.IPv6len); [done | done].
  - intros n. destruct (net.Contains n ip) eqn:E; [| done].
    apply Contains_length in E. rewrite HK in E. lia.
Qed.

Lemma string4_not_special (q : list byte) h :
  net.string4 q <> "<nil>" /\ net.string4 q <> String "?" h.
Proof.
  pose proof (string4_bytes q) as Hq.
  split; intros E; rewrite E in Hq; discriminate Hq.
Qed.

Lemma string6_not_special (p : list byte) h :
  net.string6 p <> "<nil>" /\ net.string6 p <> String "?" h.
Proof.
  pose proof (string6_bytes p) as Hp.
  split; intros E; rewrite E in Hp; discriminate Hp.
Qed.

Lemma string4_not_string6 (q p : list byte) : length p = 16 -> net.string4 q <> net.string6 p.
Proof.
  intros Hp E. pose proof (string6_colon p Hp) as Hc. rewrite <- E in Hc.
  rewrite (all_bytes_no_byte is_dec_dot) in Hc; [done | apply string4_bytes | done].
Qed.

Lemma nonnil_of_length {A} (l : list A) n : length l = S n -> l <> [].
Proof. by destruct l. Qed.

(** The text form of an address determines what every network answers. *)
Lemma String_Contains (n : net.IPNet) (ip ip' : net.IP) :
  net.String ip = net.String ip' -> net.Contains n ip = net.Contains n ip'.
Proof.
  intros E.
  destruct (IP_classify ip) as [S K|h S K|S K|S K], (IP_classify ip') as [S' K'|h' S' K'|S' K'|S' K'];
    rewrite S, S' in E;
    try (by rewrite K, K');
    try (by apply Contains_key; rewrite K, K');
    try discriminate E;
    try (by destruct (string4_not_special (key ip) h'));
    try (by destruct (string4_not_special (key ip') h));
    try (by destruct (string6_not_special (key ip) h'));
    try (by destruct (string6_not_special (key ip') h));
    try (by destruct (string4_not_special (key ip) ""));
    try (by destruct (string4_not_special (key ip') ""));
    try (by destruct (string6_not_special (key ip) ""));
    try (by destruct (string6_not_special (key ip') "")).
  - apply Contains_key, string4_inj; eauto using nonnil_of_length.
  - by destruct (string4_not_string6 (key ip) (key ip')).
  - by destruct (string4_not_string6 (key ip') (key ip)).
  - apply Contains_key, string6_inj; done.
Qed.


Lemma To4_of_four (ip : net.IP) : length ip = 4 -> net.To4 ip = ip.
Proof. intros E. unfold net.To4. rewrite E. reflexivity. Qed.

Lemma networkNumber_shape (n : net.IPNet) :
  CIDR_shape n = true -> length (net.networkNumberAndMask n).1 <> 0.
Proof.
  unfold CIDR_shape, net.networkNumberAndMask, net.IPv4len, net.IPv6len.
  pose proof (To4_length (net.IPNet_IP n)) as HT.
  pose proof (To4_of_four (net.IPNet_IP n)) as HT4.
  repeat match goal with
         | |- context [Nat.eqb ?a ?b] => destruct (Nat.eqb_spec a b)
         end; simpl; try lia; try discriminate.
  all: intros _; rewrite HT4 in * by done; lia.
Qed.

Lemma Contains_nil (n : net.IPNet) : CIDR_shape n = true -> net.Contains n [] = false.
Proof.
  intros Hn%networkNumber_shape. unfold net.Contains.
  destruct (net.networkNumberAndMask n) as [nn m]. simpl in Hn.
  change (net.To4 []) with (@nil byte). cbv iota beta zeta.
  change (length (if Nat.eqb (length (@nil byte)) 0 then [] else [])) with 0.
  by destruct nn.
Qed.

Lemma inRanges_nil (ranges : list net.IPNet) :
  forallb CIDR_shape ranges = true -> inRanges ranges [] = false.
Proof.
  unfold inRanges. induction ranges as [|n l IH]; simpl; [done |].
  intros [Hn Hl]%andb_true_iff. by rewrite Contains_nil, IH.
Qed.

Lemma find_first_after {A} (p : A -> bool) (l l' : list A) (x : A) :
  Forall (fun y => p y = false) l -> p x = true -> List.find p (l ++ x :: l') = Some x.
Proof.
  induction 1 as [|y l Hy _ IH]; simpl; intros Hx; [by rewrite Hx |]. rewrite Hy. by apply IH.
Qed.

Lemma length_append (a b : string) :
  String.length (a +:+ b) = String.length a + String.length b.
Proof. induction a as [|x a IH]; [done |]. rewrite append_cons. simpl. by rewrite IH. Qed.

Lemma LastIndexByte_none s c : net.has_byte s c = false -> strings.LastIndexByte s c = None.
Proof.
  unfold net.has_byte. induction s as [|x s IH]; simpl; [done |].
  destruct (Ascii.eqb x c); [done |].
  destruct (strings.IndexByte s c); [done |]. intros _. by rewrite IH.
Qed.

Lemma LastIndexByte_app a b c :
  net.has_byte b c = false ->
  strings.LastIndexByte (a +:+ String c b) c = Some (String.length a).
Proof.
  intros Hb. induction a as [|x a IH].
  - rewrite append_nil_l. simpl. by rewrite LastIndexByte_none, Ascii.eqb_refl.
  - rewrite append_cons. simpl. by rewrite IH.
Qed.

Lemma substring_prefix (a b : string) : String.substring 0 (String.length a) (a +:+ b) = a.
Proof.
  induction a as [|x a IH]; [by destruct b |]. rewrite append_cons. simpl. by rewrite IH.
Qed.

Lemma substring_all (s : string) : String.substring 0 (String.length s) s = s.
Proof. induction s as [|x s IH]; [done |]. simpl. by rewrite IH. Qed.

Lemma substring_suffix (a b : string) :
  String.substring (String.length a) (String.length b) (a +:+ b) = b.
Proof.
  induction a as [|x a IH]; [apply substring_all |]. rewrite append_cons. simpl. apply IH.
Qed.

Lemma has_byte_cons x s c : net.has_byte (String x s) c = Ascii.eqb x c || net.has_byte s c.
Proof.
  unfold net.has_byte. simpl. destruct (Ascii.eqb x c); [done |].
  by destruct (strings.IndexByte s c).
Qed.

Lemma plain_no_byte s c : plain s = true -> plain_byte c = false -> net.has_byte s c = false.
Proof. apply all_bytes_no_byte. Qed.

(** [SplitHostPort] on [host:port]. *)
Lemma SplitHostPort_host_port (host port : string) :
  plain host = true -> plain port = true ->
  net.SplitHostPort (host +:+ ":" +:+ port) = (host, port, None).
Proof.
  intros Hh Hp. unfold net.SplitHostPort.
  change (host +:+ ":" +:+ port) with (host +:+ String ":" port).
  rewrite LastIndexByte_app by (by apply plain_no_byte).
  assert (forall c, plain_byte c = false -> Ascii.eqb ":" c = false ->
            net.has_byte (host +:+ String ":" port) c = false) as Hfree.
  { intros c Hc Hne.
    by rewrite has_byte_app, has_byte_cons, Hne, !(plain_no_byte _ c). }
  rewrite bool_decide_false.
  2: { destruct host as [|x host]; [done |]. rewrite append_cons. simpl.
       intros [= ->]. simpl in Hh. discriminate Hh. }
  unfold strings.slice, strings.slice_from. rewrite !Nat.sub_0_r, substring_prefix.
  rewrite (plain_no_byte host ":") by done.
  rewrite substring_all, !Hfree by done.
  do 2 f_equal. rewrite length_append. simpl.
  replace (String.length host + S (String.length port) - (String.length host + 1))
    with (String.length port) by lia.
  change (host +:+ String ":" port) with (host +:+ (":" +:+ port)).
  rewrite <- append_assoc.
  replace (String.length host + 1) with (String.length (host +:+ ":"))
    by (rewrite length_append; done).
  apply substring_suffix.
Qed.



(** ** The handler on a sound cache *)

Section facts.
Context {W : Type}.
Context `{GoLib}.
Implicit Types (hd : Handler W) (b : Builder W) (ip : net.IP) (r : http.Request).

Lemma set_cache_id hd : set_cache hd (cache hd) = hd.
Proof. by destruct hd. Qed.

Lemma inRanges_String ranges ip ip' :
  net.String ip = net.String ip' -> inRanges ranges ip = inRanges ranges ip'.
Proof.
  intros E. unfold inRanges. induction ranges as [|n l IH]; simpl; [done |].
  by rewrite (String_Contains n ip ip' E), IH.
Qed.

Lemma trustedIP_range_spec ip ipstr ranges hd :
  trustedIP_range ip ipstr ranges hd
  = Some (inRanges ranges ip,
          if inRanges ranges ip then set_cache hd ({[ ipstr ]} ∪ cache hd) else hd).
Proof.
  induction ranges as [|n l IH]; simpl; [done |].
  destruct (net.Contains n ip); simpl; [done | apply IH].
Qed.

(** What [trustedIP] returns and leaves behind, for any cache. *)
Lemma trustedIP_unfold ip ranges hd :
  trustedIP ip ranges hd
  = if Nat.eqb (length ranges) 0 then Some (true, hd)
    else if bool_decide (net.String ip ∈ cache hd) then Some (true, hd)
    else Some (inRanges ranges ip,
               if inRanges ranges ip
               then set_cache hd ({[ net.String ip ]} ∪ cache hd) else hd).
Proof.
  unfold trustedIP. destruct (Nat.eqb (length ranges) 0); [done |].
  unfold bind, get_handler. destruct (bool_decide _); [done |].
  apply trustedIP_range_spec.
Qed.

Lemma cache_sound_insert hd ip :
  cache_sound hd -> inRanges (trusted hd) ip = true ->
  cache_sound (set_cache hd ({[ net.String ip ]} ∪ cache hd)).
Proof.
  intros Hs Hin ip' Hc. simpl in *.
  apply elem_of_union in Hc as [E%elem_of_singleton|Hc].
  - by rewrite (inRanges_String _ ip' ip E).
  - by apply Hs.
Qed.

(** On a sound cache [trustedIP] computes [IsTrusted_spec] and keeps the cache
    sound; only the cache can change, and it only grows. *)
Lemma trustedIP_sound ip hd :
  cache_sound hd ->
  exists c, trustedIP ip (trusted hd) hd = Some (IsTrusted_spec (trusted hd) ip, set_cache hd c)
            /\ cache_sound (set_cache hd c) /\ cache hd ⊆ c.
Proof.
  intros Hs. rewrite trustedIP_unfold. unfold IsTrusted_spec.
  destruct (Nat.eqb (length (trusted hd)) 0).
  { exists (cache hd). by rewrite set_cache_id. }
  case_bool_decide as Hc.
  { exists (cache hd). by rewrite set_cache_id, (Hs _ Hc). }
  destruct (inRanges (trusted hd) ip) eqn:Hin.
  - exists ({[ net.String ip ]} ∪ cache hd). split_and!; [done | | set_solver].
    by apply cache_sound_insert.
  - exists (cache hd). by rewrite set_cache_id.
Qed.

Lemma last_map_lookup {A B} (f : A -> B) (l : list A) (x : A) (d : B) :
  l !! (length l - 1) = Some x -> List.last (map f l) d = f x.
Proof.
  induction l as [|a l IH]; [done |].
  destruct l as [|b l]; simpl in *; [by intros [= ->] |].
  rewrite Nat.sub_0_r in *. intros Hx. by apply IH.
Qed.

Lemma scan_S ranges ips i s :
  ips !! i = Some s ->
  scan ranges ips (S i)
  = if negb (IsTrusted_spec ranges (ParseIP (TrimSpace s))) then TrimSpace s
    else scan ranges ips i.
Proof.
  intros Hs. unfold scan. rewrite (take_S_r _ _ _ Hs), map_app, rev_app_distr. simpl.
  by destruct (negb _).
Qed.

Lemma realIPFromXFF_loop_S (ips : list string) (i : nat) (s : string) hd :
  ips !! i = Some s ->
  realIPFromXFF_loop ips (S i) hd
  = match trustedIP (ParseIP (TrimSpace s)) (trusted hd) hd with
    | Some (t, hd') =>
        if negb t then Some (TrimSpace s, hd') else realIPFromXFF_loop ips i hd'
    | None => None
    end.
Proof.
  intros Hi. cbn [realIPFromXFF_loop]. unfold bind, ips_at, get_handler. rewrite Hi.
  unfold ret at 1. destruct (trustedIP _ _ hd) as [[[] hd']|]; done.
Qed.

Lemma realIPFromXFF_loop_sound (ips : list string) (k : nat) : forall hd,
  k <= length ips -> 0 < length ips -> cache_sound hd ->
  exists c, realIPFromXFF_loop ips k hd = Some (scan (trusted hd) ips k, set_cache hd c)
            /\ cache_sound (set_cache hd c) /\ cache hd ⊆ c.
Proof.
  induction k as [|i IH]; intros hd Hk Hlen Hs.
  - exists (cache hd). rewrite set_cache_id. split; [| done].
    destruct ips as [|s ips]; [simpl in Hlen; lia | done].
  - destruct (lookup_lt_is_Some_2 ips i) as [s Hi]; [lia |].
    rewrite (scan_S _ _ _ _ Hi), (realIPFromXFF_loop_S _ _ _ _ Hi).
    destruct (trustedIP_sound (ParseIP (TrimSpace s)) hd Hs) as (c & -> & Hs' & Hsub).
    destruct (negb _).
    + by exists c.
    + destruct (IH (set_cache hd c)) as (c' & -> & Hs'' & Hsub'); [lia | done | done |].
      exists c'. split_and!; [done | done |]. simpl in Hsub'. set_solver.
Qed.

Lemma Split_length s c : 0 < length (strings.Split s c).
Proof. pose proof (Split_nonnil s c). destruct (strings.Split s c); [done | simpl; lia]. Qed.

Lemma ResolveChain_recursive ranges (ips : list string) :
  0 < length ips ->
  ResolveChain_spec true ranges (map TrimSpace ips) = scan ranges ips (length ips).
Proof.
  intros Hlen. unfold scan. rewrite firstn_all.
  destruct ips as [|s ips]; [simpl in Hlen; lia | done].
Qed.

Lemma ResolveChain_last ranges (ips : list string) :
  0 < length ips ->
  ResolveChain_spec false ranges (map TrimSpace ips) = List.last (map TrimSpace ips) "".
Proof. intros Hlen. destruct ips as [|s ips]; [simpl in Hlen; lia | done]. Qed.

(** [realIPFromXFF] computes [ResolveChain_spec] on the trimmed fields. *)
Lemma realIPFromXFF_sound (xff : string) hd :
  cache_sound hd ->
  exists c, realIPFromXFF xff hd
            = Some (ResolveChain_spec (recursive hd) (trusted hd)
                      (map TrimSpace (strings.Split xff ",")), set_cache hd c)
            /\ cache_sound (set_cache hd c) /\ cache hd ⊆ c.
Proof.
  intros Hs. unfold realIPFromXFF. pose proof (Split_length xff ",") as Hlen.
  destruct (Nat.eqb_spec (length (strings.Split xff ",")) 0) as [E|_]; [lia |].
  unfold bind at 1, get_handler.
  destruct (recursive hd); cbv beta iota delta [negb].
  - rewrite ResolveChain_recursive by done.
    by apply realIPFromXFF_loop_sound.
  - rewrite ResolveChain_last by done.
    exists (cache hd). rewrite set_cache_id. split_and!; [| done | done].
    destruct (lookup_lt_is_Some_2 (strings.Split xff ",")
                (length (strings.Split xff ",") - 1)) as [s Hi]; [lia |].
    unfold bind, ips_at. rewrite Hi. unfold ret. by rewrite (last_map_lookup _ _ s).
Qed.

Lemma next_ServeHTTP_unfold r hd f :
  next hd = Some f -> next_ServeHTTP r hd = Some (f r, hd).
Proof. intros Hn. unfold next_ServeHTTP. by rewrite Hn. Qed.

(** [ServeHTTP] hands the wrapped handler the request with [Resolve_spec]'s
    address in the destination header. *)
Lemma ServeHTTP_sound r hd f :
  next hd = Some f -> cache_sound hd ->
  exists c, ServeHTTP r hd
            = Some (f (forward hd r (Resolve_spec hd (http.RemoteAddr r) (http.Request_Header r))),
                    set_cache hd c)
            /\ cache_sound (set_cache hd c) /\ cache hd ⊆ c.
Proof.
  intros Hn Hs. unfold ServeHTTP, Resolve_spec, forward.
  destruct (net.SplitHostPort (http.RemoteAddr r)) as [[raw port] e]. simpl.
  unfold bind at 1, get_handler. unfold bind at 1.
  destruct (trustedIP_sound (ParseIP raw) hd Hs) as (c & -> & Hs' & Hsub).
  destruct (IsTrusted_spec (trusted hd) (ParseIP raw)); cbv beta iota delta [negb].
  - unfold bind at 1.
    destruct (String.eqb (srcHeader hd) HeaderXForwardedFor).
    + destruct (realIPFromXFF_sound (http.Get (http.Request_Header r) HeaderXForwardedFor)
                  (set_cache hd c) Hs') as (c' & -> & Hs'' & Hsub').
      simpl. rewrite (next_ServeHTTP_unfold _ _ f) by done.
      exists c'. split_and!; [done | done |]. simpl in Hsub'. set_solver.
    + unfold ret at 1. simpl. rewrite (next_ServeHTTP_unfold _ _ f) by done. by exists c.
  - simpl. rewrite (next_ServeHTTP_unfold _ _ f) by done. by exists c.
Qed.

Lemma cache_sound_empty hd : cache hd = ∅ -> cache_sound hd.
Proof. intros E ip Hin. rewrite E in Hin. set_solver. Qed.

Lemma trustedIP_total ip ranges hd :
  exists t c, trustedIP ip ranges hd = Some (t, set_cache hd c).
Proof.
  rewrite trustedIP_unfold.
  destruct (Nat.eqb _ _); [exists true, (cache hd); by rewrite set_cache_id |].
  destruct (bool_decide _); [exists true, (cache hd); by rewrite set_cache_id |].
  destruct (inRanges ranges ip); [by eexists _, _ |].
  exists false, (cache hd). by rewrite set_cache_id.
Qed.

Lemma realIPFromXFF_loop_total (ips : list string) (k : nat) : forall hd,
  k <= length ips -> 0 < length ips ->
  exists v c, realIPFromXFF_loop ips k hd = Some (v, set_cache hd c).
Proof.
  induction k as [|i IH]; intros hd Hk Hlen.
  - destruct ips as [|s ips]; [simpl in Hlen; lia |].
    exists (TrimSpace s), (cache hd). by rewrite set_cache_id.
  - destruct (lookup_lt_is_Some_2 ips i) as [s Hi]; [lia |].
    rewrite (realIPFromXFF_loop_S _ _ _ _ Hi).
    destruct (trustedIP_total (ParseIP (TrimSpace s)) (trusted hd) hd) as (t & c & ->).
    destruct (negb t); [by eexists _, _ |].
    destruct (IH (set_cache hd c)) as (v & c' & ->); [lia | done |]. by exists v, c'.
Qed.

Lemma realIPFromXFF_total (xff : string) hd :
  exists v c, realIPFromXFF xff hd = Some (v, set_cache hd c).
Proof.
  unfold realIPFromXFF. pose proof (Split_length xff ",") as Hlen.
  destruct (Nat.eqb_spec (length (strings.Split xff ",")) 0) as [E|_]; [lia |].
  unfold bind at 1, get_handler.
  destruct (recursive hd); cbv beta iota delta [negb].
  - by apply realIPFromXFF_loop_total.
  - destruct (lookup_lt_is_Some_2 (strings.Split xff ",")
                (length (strings.Split xff ",") - 1)) as [s Hi]; [lia |].
    unfold bind, ips_at. rewrite Hi. unfold ret.
    exists (TrimSpace s), (cache hd). by rewrite set_cache_id.
Qed.

Lemma candidate_total hd0 r hd :
  exists v c, candidate hd0 r hd = Some (v, set_cache hd c).
Proof.
  unfold candidate. destruct (String.eqb _ _); [apply realIPFromXFF_total |].
  exists (http.Get (http.Request_Header r) (srcHeader hd0)), (cache hd).
  by rewrite set_cache_id.
Qed.

(** [ServeHTTP] by the three steps it takes. *)
Lemma ServeHTTP_unfold r hd :
  ServeHTTP r hd
  = let raw := (net.SplitHostPort (http.RemoteAddr r)).1.1 in
    match trustedIP (ParseIP raw) (trusted hd) hd with
    | Some (false, hd1) => next_ServeHTTP (forward hd r raw) hd1
    | Some (true, hd1) =>
        match candidate hd r hd1 with
        | Some (v, hd2) =>
            next_ServeHTTP (forward hd r (if String.eqb v "" then raw else v)) hd2
        | None => None
        end
    | None => None
    end.
Proof.
  unfold ServeHTTP, candidate, forward.
  destruct (net.SplitHostPort (http.RemoteAddr r)) as [[raw port] e]. simpl.
  unfold bind at 1, get_handler. unfold bind at 1.
  destruct (trustedIP _ _ hd) as [[[] hd1]|]; done.
Qed.

Lemma ServeHTTP_total r hd (f : http.Request -> W) :
  next hd = Some f ->
  exists v c, ServeHTTP r hd = Some (f (forward hd r v), set_cache hd c).
Proof.
  intros Hn. rewrite ServeHTTP_unfold. cbv zeta.
  destruct (trustedIP_total (ParseIP (net.SplitHostPort (http.RemoteAddr r)).1.1)
              (trusted hd) hd) as (t & c & ->).
  destruct t.
  - destruct (candidate_total hd r (set_cache hd c)) as (v & c' & ->).
    rewrite (next_ServeHTTP_unfold _ _ f) by done. by eexists _, _.
  - rewrite (next_ServeHTTP_unfold _ _ f) by done. by eexists _, _.
Qed.

Lemma serve_all_sound (rs : list http.Request) : forall hd hd_w (f : http.Request -> W),
  next hd = Some f -> cache_sound hd -> serve_all rs hd = Some hd_w ->
  exists c, hd_w = set_cache hd c /\ cache_sound hd_w.
Proof.
  induction rs as [|r rs IH]; intros hd hd_w f Hn Hs; simpl.
  - intros [= <-]. exists (cache hd). by rewrite set_cache_id.
  - destruct (ServeHTTP_sound r hd f Hn Hs) as (c & -> & Hs' & _).
    intros Hrun. destruct (IH (set_cache hd c) hd_w f Hn Hs' Hrun) as (c' & -> & Hs'').
    by exists c'.
Qed.


(** [trustedIP] with ranges configured, on a sound cache: the answer is
    membership; a member's text is in the cache afterwards and a
    non-member leaves the handler as it was. *)
Lemma trustedIP_membership hd ip :
  trusted hd <> [] -> cache_sound hd ->
  exists hd', trustedIP ip (trusted hd) hd = Some (inRanges (trusted hd) ip, hd')
    /\ (inRanges (trusted hd) ip = true ->
          hd' = set_cache hd ({[ net.String ip ]} ∪ cache hd)
          /\ net.String ip ∈ cache hd')
    /\ (inRanges (trusted hd) ip = false -> hd' = hd).
Proof.
  intros Hne Hs. rewrite trustedIP_unfold.
  destruct (Nat.eqb_spec (length (trusted hd)) 0) as [E|_]; [by destruct (trusted hd) |].
  case_bool_decide as Hc.
  - rewrite (Hs _ Hc). exists hd. split_and!; [done | | done].
    intros _. split; [| done].
    rewrite <- (set_cache_id hd) at 1. f_equal.
    symmetry. apply subseteq_union_1_L. by apply singleton_subseteq_l.
  - destruct (inRanges (trusted hd) ip); eexists; split_and!; try done.
    intros _. split; [done | simpl; set_solver].
Qed.

(** [realIPFromXFF] in recursive mode, on a sound cache. *)
Lemma realIPFromXFF_recursive hd (xff : string) :
  recursive hd = true -> cache_sound hd ->
  let entries := map TrimSpace (strings.Split xff ",") in
  exists hd',
    realIPFromXFF xff hd
    = Some (match List.find (fun e => negb (IsTrusted_spec (trusted hd) (ParseIP e)))
                            (rev entries) with
            | Some e => e
            | None => List.hd "" entries
            end, hd').
Proof.
  intros Hrec Hs entries.
  destruct (realIPFromXFF_sound xff hd Hs) as (c & -> & _). rewrite Hrec.
  exists (set_cache hd c). do 2 f_equal. unfold ResolveChain_spec. fold entries.
  pose proof (Split_length xff ",") as Hlen. subst entries.
  destruct (strings.Split xff ","); [simpl in Hlen; lia | done].
Qed.

(** With no range configured the loop trusts every entry and ends on the
    leftmost one. *)
Lemma realIPFromXFF_loop_trust_all (ips : list string) (k : nat) : forall hd,
  trusted hd = [] -> k <= length ips -> 0 < length ips ->
  realIPFromXFF_loop ips k hd = Some (TrimSpace (List.hd "" ips), hd).
Proof.
  induction k as [|i IH]; intros hd Hnil Hk Hlen.
  - destruct ips; [simpl in Hlen; lia | done].
  - destruct (lookup_lt_is_Some_2 ips i) as [s Hi]; [lia |].
    rewrite (realIPFromXFF_loop_S _ _ _ _ Hi), Hnil. simpl. apply IH; [done | lia | done].
Qed.

(** Every handler reached from a built one has a sound cache. *)
Lemma reachable_cache_sound (rs : list http.Request) hd hd' (f : http.Request -> W) :
  next hd = Some f -> cache hd = ∅ -> serve_all rs hd = Some hd' -> cache_sound hd'.
Proof.
  intros Hn Hcold Hrun.
  destruct (serve_all_sound rs hd hd' f Hn (cache_sound_empty hd Hcold) Hrun) as (c & _ & Hs).
  exact Hs.
Qed.

End facts.

(** ** The specification, claim by claim *)

Section claims.
Context {W : Type}.
Context `{GoLib}.
Implicit Types (hd : Handler W) (b : Builder W) (ip : net.IP) (r : http.Request).

(** C1.  When ranges are configured and none contains the parsed peer
    address, [ServeHTTP] hands on the request with the raw peer address in
    the destination header (the request as it came when that address is
    empty) and leaves the handler as it was; the headers of the request are
    not read, and the destination header then reads the raw peer address. *)
Theorem untrusted_peer_keeps_peer_address hd r (f : http.Request -> W) :
  let raw := (net.SplitHostPort (http.RemoteAddr r)).1.1 in
  next hd = Some f -> cache_sound hd -> trusted hd <> [] ->
  inRanges (trusted hd) (ParseIP raw) = false ->
  ServeHTTP r hd
  = Some (f (if String.eqb raw "" then r else http.Header_Set r (dstHeader hd) raw), hd)
  /\ (raw <> "" ->
      http.Get (http.Request_Header (http.Header_Set r (dstHeader hd) raw)) (dstHeader hd)
      = raw).
Proof.
  intros raw Hn Hs Hne Hout. split.
  - rewrite ServeHTTP_unfold. fold raw. cbv zeta.
    destruct (trustedIP_membership hd (ParseIP raw) Hne Hs) as (hd' & -> & _ & Hsame).
    rewrite Hout in *. rewrite (Hsame eq_refl).
    rewrite (next_ServeHTTP_unfold _ _ f Hn). unfold forward.
    by destruct (String.eqb raw "").
  - intros _. unfold http.Get, http.Header_Set, http.Set_. simpl.
    by rewrite lookup_insert_eq.
Qed.

(** C2.  In recursive mode [realIPFromXFF] returns, of the trimmed entries
    read from the right, the first whose parsed address is not trusted, and
    the leftmost entry when all are trusted; and that is what [ServeHTTP]
    writes for a trusted peer when the source header is [x-forwarded-for]
    (the raw peer address when it is empty). *)
Theorem recursive_scans_right_to_left hd (xff : string) :
  recursive hd = true -> cache_sound hd ->
  let entries := map TrimSpace (strings.Split xff ",") in
  let pick :=
    match List.find (fun e => negb (IsTrusted_spec (trusted hd) (ParseIP e)))
                    (rev entries) with
    | Some e => e
    | None => List.hd "" entries
    end in
  (exists hd', realIPFromXFF xff hd = Some (pick, hd'))
  /\ (forall r (f : http.Request -> W),
        let raw := (net.SplitHostPort (http.RemoteAddr r)).1.1 in
        next hd = Some f -> srcHeader hd = HeaderXForwardedFor ->
        http.Get (http.Request_Header r) HeaderXForwardedFor = xff ->
        IsTrusted_spec (trusted hd) (ParseIP raw) = true ->
        exists hd',
          ServeHTTP r hd
          = Some (f (forward hd r (if String.eqb pick "" then raw else pick)), hd')).
Proof.
  intros Hrec Hs entries pick.
  assert (ResolveChain_spec true (trusted hd) entries = pick) as Hpick.
  { unfold ResolveChain_spec, pick. pose proof (Split_length xff ",") as Hlen.
    subst entries. destruct (strings.Split xff ","); [simpl in Hlen; lia | done]. }
  unfold entries in Hpick. split.
  - destruct (realIPFromXFF_sound xff hd Hs) as (c & -> & _).
    rewrite Hrec, Hpick. by eexists.
  - intros r f raw Hn Hsrc Hxff Htrusted.
    destruct (ServeHTTP_sound r hd f Hn Hs) as (c & -> & _).
    exists (set_cache hd c). do 3 f_equal. unfold Resolve_spec. fold raw.
    rewrite Htrusted, Hsrc, Hxff, Hrec. simpl. by rewrite Hpick.
Qed.

(** C3.  Outside recursive mode [realIPFromXFF] returns the last entry,
    trimmed, and leaves the handler untouched: no trust evaluation takes
    place. *)
Theorem nonrecursive_takes_last_entry hd (xff : string) :
  recursive hd = false ->
  realIPFromXFF xff hd = Some (TrimSpace (List.last (strings.Split xff ",") ""), hd).
Proof.
  intros Hrec. unfold realIPFromXFF. pose proof (Split_length xff ",") as Hlen.
  destruct (Nat.eqb_spec (length (strings.Split xff ",")) 0) as [E|_]; [lia |].
  unfold bind at 1, get_handler. rewrite Hrec. cbv beta iota delta [negb].
  destruct (lookup_lt_is_Some_2 (strings.Split xff ",")
              (length (strings.Split xff ",") - 1)) as [s Hi]; [lia |].
  unfold bind, ips_at. rewrite Hi. unfold ret.
  by rewrite (last_lookup_default _ s).
Qed.

(** C4.  With ranges configured [trustedIP] answers true exactly when some
    range contains the address; on a positive answer the text of the
    address is in the cache, on a negative one the handler is unchanged.
    With no range it answers true and leaves the handler unchanged,
    whatever the cache holds. *)
Theorem trustedIP_decides_membership hd ip :
  (trusted hd <> [] -> cache_sound hd ->
     exists hd', trustedIP ip (trusted hd) hd = Some (inRanges (trusted hd) ip, hd')
       /\ (inRanges (trusted hd) ip = true <->
             exists n, In n (trusted hd) /\ net.Contains n ip = true)
       /\ (inRanges (trusted hd) ip = true ->
             hd' = set_cache hd ({[ net.String ip ]} ∪ cache hd)
             /\ net.String ip ∈ cache hd')
       /\ (inRanges (trusted hd) ip = false -> hd' = hd))
  /\ trustedIP ip [] hd = Some (true, hd).
Proof.
  split; [| done]. intros Hne Hs.
  destruct (trustedIP_membership hd ip Hne Hs) as (hd' & E & Hpos & Hneg).
  exists hd'. split_and!; [done | apply existsb_exists | done | done].
Qed.

(** C5, as amended.  For an entry that does not parse: with ranges
    configured (as [net.ParseCIDR] returns them) [trustedIP] answers false,
    and in recursive mode the entry is the result once every entry to its
    right is trusted; with no range configured [trustedIP] answers true and
    recursive mode returns the leftmost entry. *)
Theorem malformed_entry_is_returned hd (e : string) :
  ParseIP e = [] ->
  (trusted hd <> [] -> forallb CIDR_shape (trusted hd) = true -> cache_sound hd ->
     trustedIP (ParseIP e) (trusted hd) hd = Some (false, hd)
     /\ (recursive hd = true ->
         forall xff pre post,
           map TrimSpace (strings.Split xff ",") = (pre ++ e :: post)%list ->
           Forall (fun t => IsTrusted_spec (trusted hd) (ParseIP t) = true) post ->
           exists hd', realIPFromXFF xff hd = Some (e, hd')))
  /\ (trusted hd = [] ->
        trustedIP (ParseIP e) (trusted hd) hd = Some (true, hd)
        /\ (recursive hd = true ->
            forall xff, realIPFromXFF xff hd
                        = Some (List.hd "" (map TrimSpace (strings.Split xff ",")), hd))).
Proof.
  intros He. split.
  - intros Hne Hshape Hs.
    assert (inRanges (trusted hd) (ParseIP e) = false) as Hout
      by (rewrite He; by apply inRanges_nil).
    split.
    + destruct (trustedIP_membership hd (ParseIP e) Hne Hs) as (hd' & -> & _ & Hsame).
      rewrite Hout in *. by rewrite (Hsame eq_refl).
    + intros Hrec xff pre post Hsplit Hpost.
      destruct (realIPFromXFF_recursive hd xff Hrec Hs) as (hd' & ->).
      exists hd'. do 2 f_equal. cbv zeta. rewrite Hsplit, rev_app_distr. simpl.
      rewrite <- app_assoc. simpl. rewrite find_first_after; [done | |].
      * apply Forall_forall. intros t Ht%list_elem_of_In%in_rev%list_elem_of_In.
        rewrite Forall_forall in Hpost. by rewrite (Hpost _ Ht).
      * unfold IsTrusted_spec. destruct (trusted hd); [done |]. simpl length.
        simpl Nat.eqb. cbv iota. by rewrite Hout.
  - intros Hnil. split; [by rewrite Hnil |].
    intros Hrec xff. pose proof (Split_length xff ",") as Hlen.
    unfold realIPFromXFF.
    destruct (Nat.eqb_spec (length (strings.Split xff ",")) 0) as [E|_]; [lia |].
    unfold bind at 1, get_handler. rewrite Hrec. cbv beta iota delta [negb].
    rewrite realIPFromXFF_loop_trust_all by done. do 2 f_equal.
    destruct (strings.Split xff ","); [simpl in Hlen; lia | done].
Qed.


(** C7.  [SourceHeader] with a name that trims and lower-cases to
    [forwarded] records an error (keeping an earlier one); with an error
    recorded every builder call returns the builder as it is and [Build]
    returns that error and no handler; every [Build] leaves the builder as
    [New] makes it. *)
Theorem builder_error_is_sticky b (name : string) :
  ToLower (TrimSpace name) = "forwarded" ->
  (exists e, err (SourceHeader b name) = Some e
             /\ (forall e0, err b = Some e0 -> e = e0))
  /\ (forall b' e, err b' = Some e ->
        (forall n, SourceHeader b' n = b') /\ (forall n, DestinationHeader b' n = b')
        /\ (forall l, TrustedIP b' l = b') /\ (forall v, Recursive b' v = b')
        /\ (Build b').1 = (None, Some e))
  /\ (forall b', (Build b').2 = New).
Proof.
  intros Hname. split_and!.
  - unfold SourceHeader. destruct (err b) as [e0|] eqn:Hb.
    + exists e0. rewrite Hb. split; [done | by intros ? [= ->]].
    + unfold headerForwarded. rewrite Hname. simpl. eexists. split; [done | done].
  - intros b' e He. unfold SourceHeader, DestinationHeader, TrustedIP, Recursive, Build.
    rewrite He. done.
  - intros b'. unfold Build. by destruct (err b').
Qed.

(** C8.  A wrapped handler always hands the request on.  When the peer is
    trusted and the source header (or the chain walk) gives the empty
    string, the raw peer address is used instead; when that is empty too
    the request goes on as it came. *)
Theorem fallback_to_peer_and_never_fail hd r (f : http.Request -> W) :
  let raw := (net.SplitHostPort (http.RemoteAddr r)).1.1 in
  next hd = Some f ->
  (exists r' hd', ServeHTTP r hd = Some (f r', hd'))
  /\ (forall hd1 hd2,
        trustedIP (ParseIP raw) (trusted hd) hd = Some (true, hd1) ->
        (if String.eqb (srcHeader hd) HeaderXForwardedFor
         then realIPFromXFF (http.Get (http.Request_Header r) HeaderXForwardedFor)
         else ret (http.Get (http.Request_Header r) (srcHeader hd))) hd1
        = Some ("", hd2) ->
        ServeHTTP r hd
        = Some (f (if String.eqb raw "" then r
                   else http.Header_Set r (dstHeader hd) raw), hd2)).
Proof.
  intros raw Hn. split.
  - destruct (ServeHTTP_total r hd f Hn) as (v & c & ->). by eexists _, _.
  - intros hd1 hd2 Ht Hc. rewrite ServeHTTP_unfold. fold raw. cbv zeta. rewrite Ht.
    unfold candidate. rewrite Hc. simpl.
    assert (next hd2 = Some f) as Hn2.
    { destruct (trustedIP_total (ParseIP raw) (trusted hd) hd) as (t & c & Ht').
      rewrite Ht in Ht'. injection Ht' as _ ->.
      destruct (candidate_total hd r (set_cache hd c)) as (v & c' & Hc').
      unfold candidate in Hc'. rewrite Hc in Hc'. by injection Hc' as _ ->. }
    rewrite (next_ServeHTTP_unfold _ _ f Hn2). unfold forward.
    by destruct (String.eqb raw "").
Qed.

(** C9.  A second [trustedIP] call on the same address gives the answer of
    the first; and after any sequence of requests served from a cold cache,
    [ServeHTTP] hands on what it would have handed on with the cold cache. *)
Theorem cache_does_not_change_results hd :
  (forall ip t hd', trustedIP ip (trusted hd) hd = Some (t, hd') ->
     exists hd'', trustedIP ip (trusted hd') hd' = Some (t, hd''))
  /\ (forall rs hd_w r,
        cache hd = ∅ -> serve_all rs hd = Some hd_w ->
        fst <$> ServeHTTP r hd_w = fst <$> ServeHTTP r hd).
Proof.
  split.
  - intros ip t hd'. rewrite !trustedIP_unfold.
    destruct (Nat.eqb (length (trusted hd)) 0) eqn:E0.
    { intros [= <- <-]. rewrite E0. by eexists. }
    case_bool_decide as Hc.
    { intros [= <- <-]. rewrite E0, bool_decide_true by done. by eexists. }
    destruct (inRanges (trusted hd) ip) eqn:Hin; intros [= <- <-]; simpl.
    + rewrite E0, bool_decide_true by set_solver. by eexists.
    + rewrite E0, bool_decide_false, Hin by done. by eexists.
  - intros rs hd_w r Hcold Hrun.
    destruct (next hd) as [f|] eqn:Hn.
    + pose proof (cache_sound_empty hd Hcold) as Hs.
      destruct (serve_all_sound rs hd hd_w f Hn Hs Hrun) as (c & -> & Hs').
      destruct (ServeHTTP_sound r hd f Hn Hs) as (c1 & -> & _).
      destruct (ServeHTTP_sound r (set_cache hd c) f Hn Hs') as (c2 & -> & _).
      done.
    + destruct rs as [|r0 rs]; [by injection Hrun as <- |].
      simpl in Hrun. rewrite ServeHTTP_unfold in Hrun. cbv zeta in Hrun.
      destruct (trustedIP_total (ParseIP (net.SplitHostPort (http.RemoteAddr r0)).1.1)
                  (trusted hd) hd) as (t & c & Ht).
      rewrite Ht in Hrun. unfold next_ServeHTTP in Hrun. destruct t.
      * destruct (candidate_total hd r0 (set_cache hd c)) as (v & c' & Hc).
        rewrite Hc in Hrun. simpl in Hrun. by rewrite Hn in Hrun.
      * simpl in Hrun. by rewrite Hn in Hrun.
Qed.

(** C10.  A fresh builder builds without error; the handler reads and
    writes [x-real-ip], has no trusted range, which makes [trustedIP] answer
    true for every address, is not recursive, has an empty cache and no
    wrapped handler yet. *)
Theorem default_build :
  exists hd : Handler W,
    Build New = ((Some hd, None), New)
    /\ hd = {| trusted := []; srcHeader := "x-real-ip"; dstHeader := "x-real-ip";
               recursive := false; next := None; cache := ∅ |}
    /\ (forall ip, trustedIP ip (trusted hd) hd = Some (true, hd)).
Proof.
  eexists. split_and!; [reflexivity | reflexivity |].
  intros ip. by rewrite trustedIP_unfold.
Qed.

End claims.

(** ** The same on the test table *)

Import fixtures.

Lemma untrusted_peer_keeps_peer_address_witness :
  fst <$> ServeHTTP (request loopback [("x-real-ip", "1.1.1.1")]) lan_only
  = Some "127.0.0.1".
Proof.
  destruct (untrusted_peer_keeps_peer_address lan_only
              (request loopback [("x-real-ip", "1.1.1.1")]) echo) as [E _].
  - reflexivity.
  - apply cache_sound_empty. reflexivity.
  - discriminate.
  - vm_compute. reflexivity.
  - rewrite E. vm_compute. reflexivity.
Defined.

Lemma recursive_scans_right_to_left_witness :
  exists hd', realIPFromXFF "1.2.3.4, 1.1.1.1, 192.168.0.1" xff_recursive
              = Some ("1.1.1.1", hd').
Proof.
  destruct (recursive_scans_right_to_left xff_recursive "1.2.3.4, 1.1.1.1, 192.168.0.1")
    as [[hd' E] _].
  - reflexivity.
  - apply cache_sound_empty. reflexivity.
  - exists hd'. rewrite E. vm_compute. reflexivity.
Defined.

Lemma nonrecursive_takes_last_entry_witness :
  realIPFromXFF "1.2.3.4, 1.1.1.1, 192.168.0.1" xff_last = Some ("192.168.0.1", xff_last).
Proof.
  rewrite (nonrecursive_takes_last_entry xff_last "1.2.3.4, 1.1.1.1, 192.168.0.1").
  - vm_compute. reflexivity.
  - reflexivity.
Defined.

Lemma trustedIP_decides_membership_witness :
  exists hd',
    trustedIP (ParseIP "192.168.0.1") (trusted lan_only) lan_only = Some (true, hd')
    /\ "192.168.0.1" ∈ cache hd'.
Proof.
  destruct (trustedIP_decides_membership lan_only (ParseIP "192.168.0.1"))
    as [Hmem _].
  destruct Hmem as (hd' & E & _ & Hin & _).
  - discriminate.
  - apply cache_sound_empty. reflexivity.
  - exists hd'. split; [exact E |]. apply Hin. vm_compute. reflexivity.
Defined.

Lemma malformed_entry_is_returned_witness :
  exists hd', realIPFromXFF "1.2.3.4, bogus, 192.168.0.1" xff_recursive
              = Some ("bogus", hd').
Proof.
  destruct (malformed_entry_is_returned xff_recursive "bogus") as [Hranges _].
  - vm_compute. reflexivity.
  - destruct Hranges as [_ Hchain].
    + discriminate.
    + vm_compute. reflexivity.
    + apply cache_sound_empty. reflexivity.
    + apply (Hchain eq_refl "1.2.3.4, bogus, 192.168.0.1" ["1.2.3.4"] ["192.168.0.1"]).
      * vm_compute. reflexivity.
      * constructor; [vm_compute; reflexivity | constructor].
Defined.

(** With no trusted range every entry is trusted: the malformed token is
    skipped like any other and the leftmost entry comes out. *)
Lemma malformed_entry_trusted_by_trust_all :
  ParseIP "bogus" = []
  /\ fst <$> trustedIP (ParseIP "bogus") (trusted xff_trust_all) xff_trust_all = Some true
  /\ fst <$> realIPFromXFF "192.168.0.2, bogus" xff_trust_all = Some "192.168.0.2".
Proof. vm_compute. auto. Qed.



Lemma builder_error_is_sticky_witness :
  (Build (DestinationHeader (SourceHeader (W := string) New " Forwarded ") "x-client")).1
  = (None, Some "realip.Builder: `Forwarded` header is not supported").
Proof.
  destruct (builder_error_is_sticky (W := string) New " Forwarded ")
    as ((e & He & _) & Hnoop & _).
  - reflexivity.
  - destruct (Hnoop _ e He) as (_ & Hdst & _ & _ & Hbuild).
    rewrite Hdst, Hbuild. vm_compute in He. by injection He as <-.
Defined.

Lemma fallback_to_peer_and_never_fail_witness :
  fst <$> ServeHTTP (request loopback []) default_handler = Some "127.0.0.1".
Proof.
  destruct (fallback_to_peer_and_never_fail default_handler (request loopback []) echo)
    as [_ Hfall].
  - reflexivity.
  - rewrite (Hfall default_handler default_handler); vm_compute; reflexivity.
Defined.

Lemma cache_does_not_change_results_witness :
  match trustedIP (ParseIP "192.168.0.1") (trusted lan_only) lan_only with
  | Some (t, hd') =>
      exists hd'', trustedIP (ParseIP "192.168.0.1") (trusted hd') hd' = Some (t, hd'')
  | None => False
  end
  /\ match serve_all [request "192.168.0.7:80" [("x-real-ip", "1.1.1.1")];
                      request loopback []] lan_only with
     | Some warm =>
         fst <$> ServeHTTP (request "192.168.0.7:81" [("x-real-ip", "2.2.2.2")]) warm
         = fst <$> ServeHTTP (request "192.168.0.7:81" [("x-real-ip", "2.2.2.2")]) lan_only
     | None => False
     end.
Proof.
  destruct (cache_does_not_change_results lan_only) as [Hrepeat Hwarm]. split.
  - destruct (trustedIP (ParseIP "192.168.0.1") (trusted lan_only) lan_only)
      as [[t hd']|] eqn:E.
    + apply (Hrepeat _ _ _ E).
    + vm_compute in E. discriminate E.
  - destruct (serve_all _ lan_only) as [warm|] eqn:Hrun.
    + apply (Hwarm _ _ _ eq_refl Hrun).
    + vm_compute in Hrun. discriminate Hrun.
Defined.

(** The ten cases of [TestMiddleware]: what the test server prints. *)
Example test_forwarded_is_not_supported :
  (Build (W := string) (SourceHeader New "Forwarded")).1
  = (None, Some "realip.Builder: `Forwarded` header is not supported").
Proof. reflexivity. Qed.

Example test_table :
  fst <$> ServeHTTP (request loopback []) default_handler = Some "127.0.0.1"
  /\ fst <$> ServeHTTP (request loopback [("x-real-ip", "1.1.1.1")]) default_handler
     = Some "1.1.1.1"
  /\ fst <$> ServeHTTP (request loopback [("x-real-ip", "1.1.1.1")]) lan_only
     = Some "127.0.0.1"
  /\ fst <$> ServeHTTP (request loopback [("X-Forwarded-For", "192.168.0.1")]) xff_plain
     = Some "192.168.0.1"
  /\ fst <$> ServeHTTP (request loopback [("X-Forwarded-For", chain)]) xff_recursive
     = Some "1.1.1.1"
  /\ fst <$> ServeHTTP (request loopback [("X-Forwarded-For", chain)]) xff_last
     = Some "192.168.0.1"
  /\ fst <$> ServeHTTP (request loopback [("X-Forwarded-For", chain)]) xff_lan_only
     = Some "127.0.0.1"
  /\ fst <$> ServeHTTP (request loopback [("X-Forwarded-For", "192.168.0.2, 192.168.0.1")])
               xff_recursive
     = Some "192.168.0.2"
  /\ fst <$> ServeHTTP (request loopback [("X-Forwarded-For", "192.168.0.2, 192.168.0.1")])
               xff_trust_all
     = Some "192.168.0.2".
Proof. vm_compute. repeat split. Qed.

(** ** Further properties of the builder *)

Lemma last_nonempty_default {A} (l : list A) (x d d' : A) :
  List.last (x :: l) d = List.last (x :: l) d'.
Proof. revert x. induction l as [|y l IH]; intros x; [done |]. exact (IH y). Qed.

Lemma last_cons_default {A} (l : list A) (x d : A) :
  List.last (x :: l) d = List.last l x.
Proof.
  destruct l as [|y l]; [done |].
  change (List.last (x :: y :: l) d) with (List.last (y :: l) d).
  apply last_nonempty_default.
Qed.

Lemma last_app_default {A} (l1 l2 : list A) (d : A) :
  List.last (l1 ++ l2) d = List.last l2 (List.last l1 d).
Proof.
  revert d. induction l1 as [|x l1 IH]; intros d; [done |].
  change ((x :: l1) ++ l2)%list with (x :: (l1 ++ l2))%list.
  by rewrite !last_cons_default, IH.
Qed.

Section builder.
Context {W : Type}.
Context `{GoLib}.
Implicit Types (hd : Handler W) (b : Builder W) (c : call) (cs : list call).

Lemma do_call_error b c e : err b = Some e -> do_call b c = b.
Proof.
  intros He. destruct c; simpl;
    unfold SourceHeader, DestinationHeader, TrustedIP, Recursive; by rewrite He.
Qed.

Lemma do_calls_error cs b e : err b = Some e -> do_calls cs b = b.
Proof.
  revert b. induction cs as [|c cs IH]; intros b He; [done |].
  unfold do_calls in *. simpl. rewrite (do_call_error b c e He). by apply IH.
Qed.

(** One accepted call: the assigned field takes the argument, the others
    and the error stay. *)
Lemma do_call_accepted b c :
  err b = None -> rejected c = false ->
  err (do_call b c) = None
  /\ srcHeader (h (do_call b c)) = List.last (source_args [c]) (srcHeader (h b))
  /\ dstHeader (h (do_call b c)) = List.last (destination_args [c]) (dstHeader (h b))
  /\ trusted (h (do_call b c)) = (trusted (h b) ++ trusted_args [c])%list
  /\ recursive (h (do_call b c)) = List.last (recursive_args [c]) (recursive (h b))
  /\ next (h (do_call b c)) = next (h b)
  /\ cache (h (do_call b c)) = cache (h b).
Proof.
  intros He Hrej. destruct c; simpl in *;
    unfold SourceHeader, DestinationHeader, TrustedIP, Recursive; rewrite He; simpl.
  - rewrite Hrej. simpl. by rewrite app_nil_r.
  - by rewrite app_nil_r.
  - by rewrite app_nil_r.
  - by rewrite app_nil_r.
Qed.

Lemma do_call_rejected b c :
  err b = None -> rejected c = true ->
  err (do_call b c) = Some "realip.Builder: `Forwarded` header is not supported".
Proof.
  intros He Hrej. destruct c; try discriminate Hrej. simpl in *.
  unfold SourceHeader. by rewrite He, Hrej.
Qed.

Lemma do_calls_cons c cs b : do_calls (c :: cs) b = do_calls cs (do_call b c).
Proof. reflexivity. Qed.

Lemma source_args_cons c cs :
  source_args (c :: cs) = (source_args [c] ++ source_args cs)%list.
Proof. unfold source_args. simpl. by rewrite app_nil_r. Qed.

Lemma destination_args_cons c cs :
  destination_args (c :: cs) = (destination_args [c] ++ destination_args cs)%list.
Proof. unfold destination_args. simpl. by rewrite app_nil_r. Qed.

Lemma trusted_args_cons c cs :
  trusted_args (c :: cs) = (trusted_args [c] ++ trusted_args cs)%list.
Proof. unfold trusted_args. simpl. by rewrite app_nil_r. Qed.

Lemma recursive_args_cons c cs :
  recursive_args (c :: cs) = (recursive_args [c] ++ recursive_args cs)%list.
Proof. unfold recursive_args. simpl. by rewrite app_nil_r. Qed.

(** The error after a sequence of calls. *)
Lemma do_calls_err cs : forall b,
  err b = None ->
  err (do_calls cs b)
  = if existsb rejected cs
    then Some "realip.Builder: `Forwarded` header is not supported" else None.
Proof.
  induction cs as [|c cs IH]; intros b He; [done |].
  rewrite do_calls_cons. simpl. destruct (rejected c) eqn:Hrej; simpl.
  - pose proof (do_call_rejected b c He Hrej) as He'.
    by rewrite (do_calls_error cs _ _ He').
  - destruct (do_call_accepted b c He Hrej) as (He' & _). by apply IH.
Qed.

(** The handler after a sequence of accepted calls. *)
Lemma do_calls_accepted cs : forall b,
  err b = None -> existsb rejected cs = false ->
  srcHeader (h (do_calls cs b)) = List.last (source_args cs) (srcHeader (h b))
  /\ dstHeader (h (do_calls cs b)) = List.last (destination_args cs) (dstHeader (h b))
  /\ trusted (h (do_calls cs b)) = (trusted (h b) ++ trusted_args cs)%list
  /\ recursive (h (do_calls cs b)) = List.last (recursive_args cs) (recursive (h b))
  /\ next (h (do_calls cs b)) = next (h b)
  /\ cache (h (do_calls cs b)) = cache (h b).
Proof.
  induction cs as [|c cs IH]; intros b He Hrej.
  - simpl. by rewrite app_nil_r.
  - simpl in Hrej. apply orb_false_iff in Hrej as [Hc Hcs].
    destruct (do_call_accepted b c He Hc) as (He' & Hs & Hd & Ht & Hr & Hn & Hca).
    destruct (IH (do_call b c) He' Hcs) as (Hs' & Hd' & Ht' & Hr' & Hn' & Hca').
    rewrite do_calls_cons.
    rewrite (source_args_cons c cs), (destination_args_cons c cs),
      (trusted_args_cons c cs), (recursive_args_cons c cs).
    rewrite !last_app_default, Hs', Hd', Ht', Hr', Hn', Hca', Hs, Hd, Ht, Hr, Hn, Hca.
    by rewrite app_assoc.
Qed.

Lemma source_args_not_forwarded cs :
  existsb rejected cs = false -> Forall (fun s => s <> headerForwarded) (source_args cs).
Proof.
  induction cs as [|c cs IH]; simpl; [constructor |].
  intros [Hc Hcs]%orb_false_iff. destruct c; simpl in *; auto.
  constructor; [by apply String.eqb_neq | auto].
Qed.

Lemma last_Forall {A} (P : A -> Prop) (l : list A) (d : A) :
  Forall P l -> P d -> P (List.last l d).
Proof.
  intros Hl. revert d. induction Hl as [|x l Hx _ IH]; intros d Hd; [done |].
  rewrite last_cons_default. by apply IH.
Qed.

(** [Build] after a sequence of calls on a fresh builder. *)
Lemma Build_do_calls cs :
  (Build (do_calls cs (New (W := W)))).1
  = if existsb rejected cs then (None, Some "realip.Builder: `Forwarded` header is not supported")
    else (Some (h (do_calls cs New)), None).
Proof.
  unfold Build. rewrite (do_calls_err cs New eq_refl).
  by destruct (existsb rejected cs).
Qed.


Lemma Build_do_calls_Some cs hd :
  (Build (do_calls cs (New (W := W)))).1 = (Some hd, None) ->
  existsb rejected cs = false /\ hd = h (do_calls cs New).
Proof.
  rewrite Build_do_calls. destruct (existsb rejected cs); [done |].
  intros [= <-]. done.
Qed.

Lemma ToLower_last (l : list string) (d : string) :
  (forall s, ToLower (ToLower s) = ToLower s) -> ToLower d = d ->
  Forall (fun s => exists t, s = ToLower t) l ->
  ToLower (List.last l d) = List.last l d.
Proof.
  intros Hidem Hd Hl.
  apply (last_Forall (fun s => ToLower s = s)); [| done].
  eapply Forall_impl; [exact Hl |]. intros s [t ->]. apply Hidem.
Qed.

Lemma source_args_lowered cs :
  Forall (fun s => exists t, s = ToLower t) (source_args cs).
Proof.
  induction cs as [|c cs IH]; [constructor |].
  rewrite source_args_cons. apply Forall_app. split; [| done].
  destruct c; simpl; repeat constructor. by eexists.
Qed.

Lemma destination_args_lowered cs :
  Forall (fun s => exists t, s = ToLower t) (destination_args cs).
Proof.
  induction cs as [|c cs IH]; [constructor |].
  rewrite destination_args_cons. apply Forall_app. split; [| done].
  destruct c; simpl; repeat constructor. by eexists.
Qed.

(** X1.  A fresh builder driven through any sequence of calls fails to
    build exactly when one of the calls is a [SourceHeader] naming
    [Forwarded]; the error is then the fixed message and no handler is
    returned.  No other call can make [Build] fail, and the builder is as
    [New] makes it afterwards. *)
Theorem Build_fails_exactly_on_forwarded cs :
  (existsb rejected cs = true <->
     (Build (do_calls cs (New (W := W)))).1
     = (None, Some "realip.Builder: `Forwarded` header is not supported"))
  /\ (existsb rejected cs = false <->
        exists hd, (Build (do_calls cs (New (W := W)))).1 = (Some hd, None))
  /\ (Build (do_calls cs (New (W := W)))).2 = New.
Proof.
  rewrite Build_do_calls. split_and!;
    [| | unfold Build; simpl; by destruct (err (do_calls cs New))].
  - destruct (existsb rejected cs); split; done.
  - destruct (existsb rejected cs); split; try done.
    + by intros [hd Hhd].
    + intros _. by eexists.
Qed.

(** X2.  The handler built after a sequence of calls: source, destination
    and recursion flag are those of the last call that sets them (the
    defaults when there is none), the trusted ranges are those of all
    [TrustedIP] calls in call order, the cache is empty and no handler is
    wrapped yet. *)
Theorem built_handler_fields cs hd :
  (Build (do_calls cs New)).1 = (Some hd, None) ->
  srcHeader hd = List.last (source_args cs) HeaderXRealIP
  /\ dstHeader hd = List.last (destination_args cs) HeaderXRealIP
  /\ trusted hd = trusted_args cs
  /\ recursive hd = List.last (recursive_args cs) false
  /\ next hd = None
  /\ cache hd = ∅.
Proof.
  intros [Hrej ->]%Build_do_calls_Some.
  exact (do_calls_accepted cs New eq_refl Hrej).
Qed.

(** X3.  The guarantee [ServeHTTP] relies on: the source header of a built
    handler is never [forwarded], and when [ToLower] is idempotent both
    header names of a built handler are lower-cased. *)
Theorem built_handler_headers_lowered cs hd :
  (Build (do_calls cs New)).1 = (Some hd, None) ->
  srcHeader hd <> headerForwarded
  /\ ((forall s, ToLower (ToLower s) = ToLower s) ->
      ToLower HeaderXRealIP = HeaderXRealIP ->
      ToLower (srcHeader hd) = srcHeader hd /\ ToLower (dstHeader hd) = dstHeader hd).
Proof.
  intros [Hrej ->]%Build_do_calls_Some.
  destruct (do_calls_accepted cs New eq_refl Hrej) as (-> & -> & _).
  change (srcHeader (h New)) with HeaderXRealIP.
  change (dstHeader (h New)) with HeaderXRealIP.
  split.
  - apply (last_Forall (fun s => s <> headerForwarded)); [| done].
    by apply source_args_not_forwarded.
  - intros Hidem Hd. split; apply ToLower_last; auto.
    + apply source_args_lowered.
    + apply destination_args_lowered.
Qed.

(** X4.  Calls that set different fields can be swapped without changing
    what [Build] returns. *)
Theorem calls_on_different_fields_commute b c1 c2 :
  call_field c1 <> call_field c2 ->
  (Build (do_call (do_call b c1) c2)).1 = (Build (do_call (do_call b c2) c1)).1.
Proof.
  intros Hne. destruct (err b) as [e|] eqn:He.
  - by rewrite (do_call_error b c1 e He), (do_call_error b c2 e He),
      (do_call_error b c1 e He).
  - destruct c1, c2; try (by destruct Hne); simpl;
      unfold Build, SourceHeader, DestinationHeader, TrustedIP, Recursive;
      rewrite ?He; simpl;
      repeat (match goal with |- context [String.eqb ?a ?b] => destruct (String.eqb a b) end;
              simpl; rewrite ?He; simpl);
      reflexivity.
Qed.

End builder.

(** ** Further properties of the handler *)

Section serving.
Context {W : Type}.
Context `{GoLib}.
Implicit Types (hd : Handler W) (b : Builder W) (ip : net.IP) (r : http.Request).

Lemma set_cache_set_cache hd c c' : set_cache (set_cache hd c) c' = set_cache hd c'.
Proof. reflexivity. Qed.


Lemma singleton_included {A} (x : A) (l : list A) : x ∈ l -> [x] ⊆ l.
Proof. intros Hx y Hy. apply list_elem_of_singleton in Hy. by subst. Qed.

Lemma cacheable_mono hd es es' s : es ⊆ es' -> cacheable hd es s -> cacheable hd es' s.
Proof. intros Hsub (e & He & Hs & Hin). exists e. split; [by apply Hsub | done]. Qed.

(** [trustedIP] changes the cache only, by at most the text of its
    argument, and only when a range contains it. *)
Lemma trustedIP_grows (e : string) hd t hd' :
  trustedIP (ParseIP e) (trusted hd) hd = Some (t, hd') ->
  exists c, hd' = set_cache hd c /\ cache hd ⊆ c
            /\ (forall s, s ∈ c -> s ∈ cache hd \/ cacheable hd [e] s)
            /\ (trusted hd = [] -> c = cache hd).
Proof.
  rewrite trustedIP_unfold.
  destruct (Nat.eqb_spec (length (trusted hd)) 0) as [E|E].
  { intros [= <- <-]. exists (cache hd). rewrite set_cache_id. by split_and!; auto. }
  destruct (bool_decide _).
  { intros [= <- <-]. exists (cache hd). rewrite set_cache_id. by split_and!; auto. }
  destruct (inRanges (trusted hd) (ParseIP e)) eqn:Hin; intros [= <- <-].
  - exists ({[ net.String (ParseIP e) ]} ∪ cache hd).
    split_and!; [done | apply union_subseteq_r | |].
    + intros s [->%elem_of_singleton | Hs]%elem_of_union; [right | by left].
      exists e. split_and!; [apply list_elem_of_singleton; reflexivity | done | done].
    + intros Ht. rewrite Ht in E. done.
  - exists (cache hd). rewrite set_cache_id. by split_and!; auto.
Qed.

Lemma realIPFromXFF_loop_grows (ips : list string) (k : nat) : forall hd v hd',
  k <= length ips -> 0 < length ips ->
  realIPFromXFF_loop ips k hd = Some (v, hd') ->
  v ∈ map TrimSpace ips
  /\ exists c, hd' = set_cache hd c /\ cache hd ⊆ c
       /\ (forall s, s ∈ c -> s ∈ cache hd \/ cacheable hd (map TrimSpace ips) s)
       /\ (trusted hd = [] -> c = cache hd).
Proof.
  induction k as [|i IH]; intros hd v hd' Hk Hlen.
  - destruct ips as [|s0 ips]; [simpl in Hlen; lia |].
    intros [= <- <-]. split; [apply list_elem_of_here |].
    exists (cache hd). rewrite set_cache_id. by split_and!; auto.
  - destruct (lookup_lt_is_Some_2 ips i) as [s Hi]; [lia |].
    rewrite (realIPFromXFF_loop_S _ _ _ _ Hi).
    assert (TrimSpace s ∈ map TrimSpace ips) as Hs.
    { apply list_elem_of_fmap. exists s. split; [done |]. by eapply list_elem_of_lookup_2. }
    destruct (trustedIP _ _ _) as [[t hd1]|] eqn:Ht; [| done].
    apply trustedIP_grows in Ht as (c & -> & Hsub & Hnew & Hall).
    destruct t; cbv beta iota delta [negb].
    + intros Hrun. apply IH in Hrun as (Hv & c' & -> & Hsub' & Hnew' & Hall'); [| lia | done].
      split; [done |]. exists c'. split_and!; [done | by etrans | |].
      * intros x Hx. destruct (Hnew' x Hx) as [Hx'|Hx']; [| by right].
        destruct (Hnew x Hx') as [?|Hc]; [by left | right].
        eapply cacheable_mono; [| exact Hc]. by apply singleton_included.
      * intros E. rewrite (Hall' E). by apply Hall.
    + intros [= <- <-]. split; [done |]. exists c. split_and!; [done | done | | done].
      intros x Hx. destruct (Hnew x Hx) as [?|Hc]; [by left | right].
      eapply cacheable_mono; [| exact Hc]. by apply singleton_included.
Qed.

Lemma realIPFromXFF_grows (xff : string) hd v hd' :
  realIPFromXFF xff hd = Some (v, hd') ->
  v ∈ map TrimSpace (strings.Split xff ",")
  /\ exists c, hd' = set_cache hd c /\ cache hd ⊆ c
       /\ (forall s, s ∈ c ->
             s ∈ cache hd \/ cacheable hd (map TrimSpace (strings.Split xff ",")) s)
       /\ (trusted hd = [] -> c = cache hd).
Proof.
  unfold realIPFromXFF. pose proof (Split_length xff ",") as Hlen.
  destruct (Nat.eqb_spec (length (strings.Split xff ",")) 0) as [E|_]; [lia |].
  unfold bind at 1, get_handler.
  destruct (recursive hd); cbv beta iota delta [negb].
  - by apply realIPFromXFF_loop_grows.
  - destruct (lookup_lt_is_Some_2 (strings.Split xff ",")
                (length (strings.Split xff ",") - 1)) as [s Hi]; [lia |].
    unfold bind, ips_at. rewrite Hi. unfold ret. intros [= <- <-]. split.
    + apply list_elem_of_fmap. exists s. split; [done |]. by eapply list_elem_of_lookup_2.
    + exists (cache hd). rewrite set_cache_id. by split_and!; auto.
Qed.


Lemma candidate_grows hd0 r hd v hd' :
  trusted hd0 = trusted hd -> recursive hd0 = recursive hd ->
  candidate hd0 r hd = Some (v, hd') ->
  exists c, hd' = set_cache hd c /\ cache hd ⊆ c
    /\ (forall s, s ∈ c ->
          s ∈ cache hd
          \/ cacheable hd (map TrimSpace
                (strings.Split (http.Get (http.Request_Header r) HeaderXForwardedFor) ",")) s)
    /\ (trusted hd = [] -> c = cache hd).
Proof.
  intros _ _. unfold candidate. destruct (String.eqb _ _).
  - intros Hrun. by apply realIPFromXFF_grows in Hrun as [_ Hc].
  - intros [= <- <-]. exists (cache hd). rewrite set_cache_id. by split_and!; auto.
Qed.


Lemma ServeHTTP_grows r hd w hd' :
  ServeHTTP r hd = Some (w, hd') ->
  exists f v c,
    next hd = Some f /\ w = f (forward hd r v)
    /\ hd' = set_cache hd c /\ cache hd ⊆ c
    /\ (forall s, s ∈ c -> s ∈ cache hd \/ cacheable hd (inspected r) s)
    /\ (trusted hd = [] -> c = cache hd).
Proof.
  rewrite ServeHTTP_unfold. cbv zeta.
  set (raw := (net.SplitHostPort (http.RemoteAddr r)).1.1).
  destruct (trustedIP _ _ _) as [[t hd1]|] eqn:Ht; [| done].
  apply trustedIP_grows in Ht as (c & -> & Hsub & Hnew & Hall).
  assert (forall s, s ∈ c -> s ∈ cache hd \/ cacheable hd (inspected r) s) as Hnew1.
  { intros s Hs. destruct (Hnew s Hs) as [?|Hc]; [by left | right].
    eapply cacheable_mono; [| exact Hc].
    apply singleton_included, list_elem_of_here. }
  destruct t.
  - destruct (candidate hd r (set_cache hd c)) as [[v hd2]|] eqn:Hc; [| done].
    apply candidate_grows in Hc as (c' & -> & Hsub' & Hnew' & Hall'); [| done | done].
    unfold next_ServeHTTP. simpl next.
    destruct (next hd) as [f|] eqn:Hn; [| done]. intros [= <- <-].
    exists f, (if String.eqb v "" then raw else v), c'.
    split_and!; [done | done | done | by etrans | |].
    + intros s Hs. destruct (Hnew' s Hs) as [Hs'|Hs']; [by apply Hnew1 |].
      right. eapply cacheable_mono; [| exact Hs'].
      intros x Hx. by apply list_elem_of_further.
    + intros E. rewrite (Hall' E). by apply Hall.
  - unfold next_ServeHTTP. simpl next.
    destruct (next hd) as [f|] eqn:Hn; [| done]. intros [= <- <-].
    by exists f, raw, c.
Qed.


(** [Header.Get] after [Header.Set]. *)
Lemma Get_Set (m : http.Header) (k k' v : string) :
  http.Get (http.Set_ m k v) k'
  = if bool_decide (CanonicalMIMEHeaderKey k = CanonicalMIMEHeaderKey k')
    then v else http.Get m k'.
Proof.
  unfold http.Get, http.Set_. case_bool_decide as E.
  - by rewrite E, lookup_insert_eq.
  - by rewrite lookup_insert_ne.
Qed.

Lemma Set_Set (m : http.Header) (k v v' : string) :
  http.Set_ (http.Set_ m k v) k v' = http.Set_ m k v'.
Proof. unfold http.Set_. apply insert_insert_eq. Qed.



(** X7.  Serving a request changes nothing of the handler but its cache,
    and the cache only grows: every new key is the text form of the address
    that the raw peer address or a trimmed [X-Forwarded-For] entry parses
    to, and some configured range contains that address.  A handler with no
    range configured is left exactly as it was. *)
Theorem ServeHTTP_changes_only_cache r hd w hd' :
  ServeHTTP r hd = Some (w, hd') ->
  trusted hd' = trusted hd /\ srcHeader hd' = srcHeader hd
  /\ dstHeader hd' = dstHeader hd /\ recursive hd' = recursive hd
  /\ next hd' = next hd
  /\ cache hd ⊆ cache hd'
  /\ (forall s, s ∈ cache hd' -> s ∉ cache hd ->
        exists e, e ∈ inspected r /\ s = net.String (ParseIP e)
                  /\ inRanges (trusted hd) (ParseIP e) = true)
  /\ (trusted hd = [] -> hd' = hd).
Proof.
  intros (f & v & c & _ & _ & -> & Hsub & Hnew & Hall)%ServeHTTP_grows.
  split_and!; try done.
  - intros s Hs Hnot. simpl in Hs. by destruct (Hnew s Hs) as [?|Hc].
  - intros E. rewrite (Hall E). apply set_cache_id.
Qed.

End serving.

Lemma existsb_Permutation {A} (p : A -> bool) (l l' : list A) :
  l ≡ₚ l' -> existsb p l = existsb p l'.
Proof.
  induction 1 as [|x l l' _ IH|x y l|l l' l'' _ IH1 _ IH2]; simpl.
  - done.
  - by rewrite IH.
  - by destruct (p x), (p y).
  - by rewrite IH1.
Qed.

Lemma find_app {A} (p : A -> bool) (l l' : list A) :
  List.find p (l ++ l')
  = match List.find p l with Some x => Some x | None => List.find p l' end.
Proof. induction l as [|x l IH]; simpl; [done |]. by destruct (p x). Qed.

Lemma find_existsb {A} (p : A -> bool) (l : list A) :
  existsb p l = true -> exists x, List.find p l = Some x.
Proof.
  induction l as [|x l IH]; simpl; [done |].
  destruct (p x); [by eexists | exact IH].
Qed.

Lemma existsb_rev {A} (p : A -> bool) (l : list A) : existsb p (rev l) = existsb p l.
Proof. apply existsb_Permutation. symmetry. apply Permutation_rev. Qed.

Lemma existsb_map {A B} (f : A -> B) (p : B -> bool) (l : list A) :
  existsb p (map f l) = existsb (fun x => p (f x)) l.
Proof. induction l as [|x l IH]; simpl; [done |]. by rewrite IH. Qed.

Section resolving.
Context {W : Type}.
Context `{GoLib}.
Implicit Types (hd : Handler W) (b : Builder W) (ip : net.IP) (r : http.Request).


Lemma Resolve_spec_set_cache hd c addr headers :
  Resolve_spec (set_cache hd c) addr headers = Resolve_spec hd addr headers.
Proof. reflexivity. Qed.


(** X9.  [realIPFromXFF] always returns, and what it returns is one of
    the trimmed comma-separated fields of its argument, in either mode and
    with any cache; for a header without a comma that is the trimmed
    header. *)
Theorem realIPFromXFF_returns_an_entry (xff : string) hd :
  exists v hd',
    realIPFromXFF xff hd = Some (v, hd')
    /\ v ∈ map TrimSpace (strings.Split xff ",")
    /\ (net.has_byte xff "," = false -> v = TrimSpace xff).
Proof.
  destruct (realIPFromXFF_total xff hd) as (v & c & Hrun).
  exists v, (set_cache hd c). split; [done |].
  apply realIPFromXFF_grows in Hrun as [Hv _]. split; [done |].
  intros Hno. rewrite (Split_no_sep _ _ Hno) in Hv.
  by apply list_elem_of_singleton in Hv.
Qed.

(** X10.  [trustedIP] reads its argument through the text form only: two
    addresses with the same [String()] get the same answer and leave the
    same handler, with any ranges and any cache. *)
Theorem trustedIP_reads_only_the_text ip ip' (ranges : list net.IPNet) hd :
  net.String ip = net.String ip' ->
  trustedIP ip ranges hd = trustedIP ip' ranges hd.
Proof.
  intros E. rewrite !trustedIP_unfold, E, (inRanges_String ranges ip ip' E). done.
Qed.

(** X11.  The order of the configured ranges does not matter to
    [trustedIP]: a permutation of them gives the same answer and the same
    cache. *)
Theorem trustedIP_ignores_range_order ip (ranges ranges' : list net.IPNet) hd :
  ranges ≡ₚ ranges' ->
  trustedIP ip ranges hd = trustedIP ip ranges' hd.
Proof.
  intros Hp. rewrite !trustedIP_unfold.
  rewrite (Permutation_length Hp). unfold inRanges.
  by rewrite (existsb_Permutation _ _ _ Hp).
Qed.

(** X12.  What a client puts in front of the chain does not reach the
    result.  Outside recursive mode only the text after the last comma
    counts; in recursive mode, once the part after some comma holds an
    untrusted entry, the text before that comma is never returned. *)
Theorem chain_prefix_is_ignored hd (pre tail : string) :
  (recursive hd = false ->
     realIPFromXFF (pre +:+ "," +:+ tail) hd = realIPFromXFF tail hd)
  /\ (recursive hd = true -> cache_sound hd ->
      existsb (fun s => negb (IsTrusted_spec (trusted hd) (ParseIP (TrimSpace s))))
              (strings.Split tail ",") = true ->
      fst <$> realIPFromXFF (pre +:+ "," +:+ tail) hd = fst <$> realIPFromXFF tail hd).
Proof.
  change (pre +:+ "," +:+ tail) with (pre +:+ String "," tail). split.
  - intros Hrec. unfold realIPFromXFF. rewrite Split_app.
    pose proof (Split_length tail ",") as Hlen.
    destruct (strings.Split tail ",") as [|t ts] eqn:Et; [simpl in Hlen; lia |].
    set (ps := strings.Split pre ",").
    destruct (Nat.eqb_spec (length (ps ++ t :: ts)) 0) as [E|_];
      [rewrite length_app in E; simpl in E; lia |].
    destruct (Nat.eqb_spec (length (t :: ts)) 0) as [E|_]; [done |].
    unfold bind at 1 3, get_handler. rewrite Hrec. cbv beta iota delta [negb].
    unfold bind, ips_at.
    replace (length (ps ++ t :: ts) - 1) with (length ps + (length (t :: ts) - 1))
      by (rewrite length_app; simpl; lia).
    by rewrite lookup_app_r, Nat.add_comm, Nat.add_sub by lia.
  - intros Hrec Hs Hex.
    destruct (realIPFromXFF_recursive hd (pre +:+ String "," tail) Hrec Hs) as (hd1 & ->).
    destruct (realIPFromXFF_recursive hd tail Hrec Hs) as (hd2 & ->).
    simpl. f_equal. rewrite Split_app, map_app, rev_app_distr, find_app.
    rewrite <- (existsb_map TrimSpace
                  (fun e => negb (IsTrusted_spec (trusted hd) (ParseIP e)))) in Hex.
    rewrite <- existsb_rev in Hex.
    by destruct (find_existsb _ _ Hex) as (x & ->).
Qed.

(** X13.  For a peer address [host:port] the port does not matter: the
    same request from another port of the same host is handed on with the
    same destination header and leaves the same handler. *)
Theorem port_is_ignored hd r (f : http.Request -> W) (host port port' : string) :
  next hd = Some f ->
  plain host = true -> plain port = true -> plain port' = true ->
  exists v hd',
    ServeHTTP (with_RemoteAddr r (host +:+ ":" +:+ port)) hd
    = Some (f (forward hd (with_RemoteAddr r (host +:+ ":" +:+ port)) v), hd')
    /\ ServeHTTP (with_RemoteAddr r (host +:+ ":" +:+ port')) hd
       = Some (f (forward hd (with_RemoteAddr r (host +:+ ":" +:+ port')) v), hd').
Proof.
  intros Hn Hh Hp Hp'. rewrite !ServeHTTP_unfold. cbv zeta. simpl http.RemoteAddr.
  rewrite !SplitHostPort_host_port by done. simpl fst.
  destruct (trustedIP_total (ParseIP host) (trusted hd) hd) as (t & c & ->).
  destruct t.
  - change (candidate hd (with_RemoteAddr r (host +:+ ":" +:+ port)))
      with (candidate hd r).
    change (candidate hd (with_RemoteAddr r (host +:+ ":" +:+ port')))
      with (candidate hd r).
    destruct (candidate_total hd r (set_cache hd c)) as (v & c' & ->).
    exists (if String.eqb v "" then host else v), (set_cache hd c').
    by rewrite !(next_ServeHTTP_unfold _ (set_cache hd c') f Hn).
  - exists host, (set_cache hd c). by rewrite !(next_ServeHTTP_unfold _ (set_cache hd c) f Hn).
Qed.

End resolving.

Lemma has_byte_nil c : net.has_byte "" c = false.
Proof. reflexivity. Qed.

Lemma unbracketed_no_byte s c :
  all_bytes unbracketed_byte s = true -> unbracketed_byte c = false ->
  net.has_byte s c = false.
Proof. apply all_bytes_no_byte. Qed.

Lemma IndexByte_app a b c :
  net.has_byte a c = false ->
  strings.IndexByte (a +:+ String c b) c = Some (String.length a).
Proof.
  unfold net.has_byte. induction a as [|x a IH].
  - rewrite append_nil_l. simpl. by rewrite Ascii.eqb_refl.
  - rewrite append_cons. simpl. destruct (Ascii.eqb x c); [done |].
    destruct (strings.IndexByte a c) eqn:E; [done |]. intros _. by rewrite IH.
Qed.

(** [SplitHostPort] on [[host]:port]. *)
Lemma SplitHostPort_bracketed (host port : string) :
  all_bytes unbracketed_byte host = true -> plain port = true ->
  net.SplitHostPort ("[" +:+ host +:+ "]:" +:+ port) = (host, port, None).
Proof.
  intros Hh Hp. unfold net.SplitHostPort.
  change ("[" +:+ host +:+ "]:" +:+ port) with (String "[" (host +:+ String "]" (String ":" port))).
  set (s := String "[" (host +:+ String "]" (String ":" port))).
  assert (s = (String "[" (host +:+ "]")) +:+ String ":" port) as Es.
  { unfold s. rewrite append_cons. f_equal. by rewrite append_assoc. }
  assert (String.length (String "[" (host +:+ "]")) = String.length host + 2) as El.
  { simpl. rewrite length_append. simpl. lia. }
  assert (strings.LastIndexByte s ":" = Some (String.length host + 2)) as ->.
  { rewrite Es, LastIndexByte_app by (by apply plain_no_byte). by rewrite El. }
  rewrite bool_decide_true by done.
  assert (strings.IndexByte s "]" = Some (String.length host + 1)) as ->.
  { unfold s. simpl.
    rewrite IndexByte_app by (by apply unbracketed_no_byte). f_equal. lia. }
  assert (String.length s = String.length host + 2 + S (String.length port)) as Els.
  { rewrite Es, length_append, El. reflexivity. }
  destruct (Nat.eqb_spec (String.length host + 1 + 1) (String.length s)) as [E|_]; [lia |].
  destruct (Nat.eqb_spec (String.length host + 1 + 1) (String.length host + 2)) as [_|E];
    [| lia].
  unfold strings.slice, strings.slice_from. rewrite Els.
  replace (String.length host + 1 - 1) with (String.length host) by lia.
  replace (String.length host + 2 + S (String.length port) - 1)
    with (String.length (host +:+ String "]" (String ":" port)))
    by (rewrite length_append; simpl; lia).
  replace (String.length host + 2 + S (String.length port) - (String.length host + 1 + 1))
    with (String.length (String ":" port)) by (simpl; lia).
  replace (String.length host + 2 + S (String.length port) - (String.length host + 2 + 1))
    with (String.length port) by lia.
  assert (String.substring 1 (String.length host) s = host) as ->.
  { unfold s. simpl. apply substring_prefix. }
  assert (String.substring 1 (String.length (host +:+ String "]" (String ":" port))) s
          = host +:+ String "]" (String ":" port)) as ->.
  { unfold s. simpl. apply substring_all. }
  assert (String.substring (String.length host + 1 + 1) (String.length (String ":" port)) s
          = String ":" port) as ->.
  { rewrite Es. replace (String.length host + 1 + 1)
      with (String.length (String "[" (host +:+ "]"))) by lia.
    apply substring_suffix. }
  assert (String.substring (String.length host + 2 + 1) (String.length port) s = port) as ->.
  { assert (s = (String "[" (host +:+ "]:")) +:+ port) as ->.
    { unfold s. rewrite append_cons. f_equal. by rewrite append_assoc. }
    replace (String.length host + 2 + 1) with (String.length (String "[" (host +:+ "]:")))
      by (simpl; rewrite length_append; simpl; lia).
    apply substring_suffix. }
  rewrite has_byte_app, has_byte_cons, has_byte_cons.
  rewrite (unbracketed_no_byte host "[") by done.
  rewrite (plain_no_byte port "[") by done.
  rewrite has_byte_cons, (plain_no_byte port "]") by done.
  reflexivity.
Qed.

Section forwarding.
Context {W : Type}.
Context `{GoLib}.
Implicit Types (hd : Handler W) (b : Builder W) (ip : net.IP) (r : http.Request).

Lemma forward_forward hd r v : forward hd (forward hd r v) v = forward hd r v.
Proof.
  unfold forward. destruct (String.eqb v ""); cbv beta iota delta [negb]; [done |].
  unfold http.Header_Set. simpl. by rewrite Set_Set.
Qed.

Lemma Get_forward hd r v k :
  http.Get (http.Request_Header (forward hd r v)) k
  = if String.eqb v "" then http.Get (http.Request_Header r) k
    else if bool_decide (CanonicalMIMEHeaderKey (dstHeader hd) = CanonicalMIMEHeaderKey k)
         then v else http.Get (http.Request_Header r) k.
Proof.
  unfold forward. destruct (String.eqb v ""); cbv beta iota delta [negb]; [done |].
  simpl. apply Get_Set.
Qed.

(** The design's address for the request that was handed on. *)
Lemma Resolve_spec_forward hd r :
  srcHeader hd <> HeaderXForwardedFor
  \/ CanonicalMIMEHeaderKey (dstHeader hd) <> CanonicalMIMEHeaderKey (srcHeader hd) ->
  let v := Resolve_spec hd (http.RemoteAddr r) (http.Request_Header r) in
  Resolve_spec hd (http.RemoteAddr (forward hd r v)) (http.Request_Header (forward hd r v))
  = v.
Proof.
  intros Hcfg v.
  assert (http.RemoteAddr (forward hd r v) = http.RemoteAddr r) as ->.
  { unfold forward. by destruct (negb _). }
  unfold Resolve_spec. cbv zeta.
  set (raw := (net.SplitHostPort (http.RemoteAddr r)).1.1).
  destruct (IsTrusted_spec (trusted hd) (ParseIP raw)) eqn:Ht;
    cbv beta iota delta [negb]; [| subst v; unfold Resolve_spec; cbv zeta; fold raw;
                                   by rewrite Ht].
  assert (v = let cand :=
                if String.eqb (srcHeader hd) HeaderXForwardedFor
                then ResolveChain_spec (recursive hd) (trusted hd)
                       (map TrimSpace (strings.Split
                          (http.Get (http.Request_Header r) HeaderXForwardedFor) ","))
                else http.Get (http.Request_Header r) (srcHeader hd) in
              if String.eqb cand "" then raw else cand) as Ev.
  { subst v. unfold Resolve_spec. cbv zeta. fold raw. by rewrite Ht. }
  cbv zeta in Ev.
  destruct (String.eqb_spec (srcHeader hd) HeaderXForwardedFor) as [Esrc|Esrc].
  - destruct Hcfg as [Hcfg|Hcfg]; [done |]. rewrite Esrc in Hcfg.
    rewrite Get_forward. rewrite bool_decide_false by done.
    destruct (String.eqb v ""); by rewrite <- Ev.
  - rewrite Get_forward. destruct (String.eqb_spec v "") as [E0|E0]; [by rewrite <- Ev |].
    case_bool_decide; [| by rewrite <- Ev].
    destruct (String.eqb_spec v ""); done.
Qed.

(** X14.  Serving is idempotent unless the handler reads the chain and
    writes it back: when the request that was handed on is served again
    (two copies of the middleware in a row, say), it is handed on as it
    is. *)
Theorem serving_twice_changes_nothing hd r (f : http.Request -> W) :
  next hd = Some f -> cache_sound hd ->
  srcHeader hd <> HeaderXForwardedFor
  \/ CanonicalMIMEHeaderKey (dstHeader hd) <> CanonicalMIMEHeaderKey (srcHeader hd) ->
  exists r' hd1 hd2,
    ServeHTTP r hd = Some (f r', hd1) /\ ServeHTTP r' hd1 = Some (f r', hd2).
Proof.
  intros Hn Hs Hcfg.
  destruct (ServeHTTP_sound r hd f Hn Hs) as (c & E1 & Hs1 & _).
  set (v := Resolve_spec hd (http.RemoteAddr r) (http.Request_Header r)) in *.
  destruct (ServeHTTP_sound (forward hd r v) (set_cache hd c) f Hn Hs1) as (c' & E2 & _).
  exists (forward hd r v), (set_cache hd c), (set_cache hd c'). split; [done |].
  rewrite E2. f_equal. f_equal. f_equal.
  change (forward (set_cache hd c)) with (forward hd).
  rewrite Resolve_spec_set_cache.
  pose proof (Resolve_spec_forward hd r Hcfg) as Hr. cbv zeta in Hr. fold v in Hr.
  rewrite Hr. apply forward_forward.
Qed.

(** X15.  Of a request the handler reads the peer address and the first
    value of the source header, nothing else: two requests that agree on
    these are handed on with the same address and leave the same
    handler. *)
Theorem only_peer_and_source_header_are_read hd r1 r2 (f : http.Request -> W) :
  next hd = Some f ->
  http.RemoteAddr r1 = http.RemoteAddr r2 ->
  http.Get (http.Request_Header r1) (srcHeader hd)
  = http.Get (http.Request_Header r2) (srcHeader hd) ->
  exists v hd',
    ServeHTTP r1 hd = Some (f (forward hd r1 v), hd')
    /\ ServeHTTP r2 hd = Some (f (forward hd r2 v), hd').
Proof.
  intros Hn Ha Hg. rewrite !ServeHTTP_unfold. cbv zeta. rewrite <- Ha.
  set (raw := (net.SplitHostPort (http.RemoteAddr r1)).1.1).
  assert (candidate hd r2 = candidate hd r1) as ->.
  { unfold candidate.
    destruct (String.eqb_spec (srcHeader hd) HeaderXForwardedFor) as [E|_];
      [rewrite E in Hg |]; by rewrite Hg. }
  destruct (trustedIP_total (ParseIP raw) (trusted hd) hd) as (t & c & ->).
  destruct t.
  - destruct (candidate_total hd r1 (set_cache hd c)) as (v & c' & ->).
    exists (if String.eqb v "" then raw else v), (set_cache hd c').
    by rewrite !(next_ServeHTTP_unfold _ (set_cache hd c') f Hn).
  - exists raw, (set_cache hd c).
    by rewrite !(next_ServeHTTP_unfold _ (set_cache hd c) f Hn).
Qed.

(** X16.  A source header other than [x-forwarded-for] is passed on as it
    is: for a trusted peer its first value, when not empty, is written to
    the destination header without being trimmed, split or parsed. *)
Theorem source_header_is_copied_verbatim hd r (f : http.Request -> W) (v : string) :
  next hd = Some f -> cache_sound hd ->
  srcHeader hd <> HeaderXForwardedFor ->
  IsTrusted_spec (trusted hd) (ParseIP (net.SplitHostPort (http.RemoteAddr r)).1.1) = true ->
  http.Get (http.Request_Header r) (srcHeader hd) = v -> v <> "" ->
  exists hd',
    ServeHTTP r hd = Some (f (http.Header_Set r (dstHeader hd) v), hd')
    /\ http.Get (http.Request_Header (http.Header_Set r (dstHeader hd) v)) (dstHeader hd) = v.
Proof.
  intros Hn Hs Hsrc Ht Hg Hv.
  destruct (ServeHTTP_sound r hd f Hn Hs) as (c & E & _).
  exists (set_cache hd c). split.
  - rewrite E. do 3 f_equal. unfold Resolve_spec. cbv zeta. rewrite Ht.
    cbv beta iota delta [negb].
    destruct (String.eqb_spec (srcHeader hd) HeaderXForwardedFor) as [|_]; [done |].
    rewrite Hg. apply String.eqb_neq in Hv. rewrite Hv. unfold forward. by rewrite Hv.
  - simpl. rewrite Get_Set. by rewrite bool_decide_true.
Qed.

(** X17.  When the last entry of the chain is not trusted, recursive mode
    returns what plain mode returns: that entry. *)
Theorem recursive_agrees_on_untrusted_last_hop hd (xff : string) :
  recursive hd = true -> cache_sound hd ->
  IsTrusted_spec (trusted hd)
    (ParseIP (TrimSpace (List.last (strings.Split xff ",") ""))) = false ->
  fst <$> realIPFromXFF xff hd
  = Some (TrimSpace (List.last (strings.Split xff ",") ""))
  /\ fst <$> realIPFromXFF xff (set_recursive hd false)
     = fst <$> realIPFromXFF xff hd.
Proof.
  intros Hrec Hs Hlast.
  assert (fst <$> realIPFromXFF xff hd
          = Some (TrimSpace (List.last (strings.Split xff ",") ""))) as E.
  { destruct (realIPFromXFF_recursive hd xff Hrec Hs) as (hd' & ->). simpl. f_equal.
    pose proof (Split_nonnil xff ",") as Hne.
    destruct (strings.Split xff ",") as [|s0 ss] using rev_ind; [done |].
    rewrite last_last in Hlast |- *.
    rewrite map_app, rev_app_distr. simpl. by rewrite Hlast. }
  split; [exact E |]. rewrite E.
  destruct (realIPFromXFF_sound xff (set_recursive hd false)) as (c & -> & _); [exact Hs |].
  simpl. f_equal. rewrite ResolveChain_last by apply Split_length.
  pose proof (Split_nonnil xff ",") as Hne.
  destruct (strings.Split xff ",") as [|s0 ss] using rev_ind; [done |].
  rewrite map_app. change (map TrimSpace [s0]) with [TrimSpace s0]. by rewrite !last_last.
Qed.

(** X18.  Adding ranges to a handler that has some never withdraws trust:
    an address [trustedIP] accepts is accepted with more ranges
    configured. *)
Theorem more_ranges_keep_trust ip (ranges more : list net.IPNet) hd :
  ranges <> [] ->
  fst <$> trustedIP ip ranges hd = Some true ->
  fst <$> trustedIP ip (ranges ++ more) hd = Some true.
Proof.
  intros Hne. rewrite !trustedIP_unfold, length_app.
  destruct ranges as [|n ranges]; [done |]. simpl length.
  destruct (Nat.eqb_spec (S (length ranges)) 0) as [|_]; [lia |].
  destruct (Nat.eqb_spec (S (length ranges) + length more) 0) as [|_]; [lia |].
  destruct (bool_decide _); [done |].
  unfold inRanges. rewrite existsb_app.
  destruct (existsb _ (n :: ranges)); [done |]. simpl. discriminate.
Qed.

(** X19.  An IPv6 peer address arrives as [[host]:port]; the handler takes
    [host], without the brackets and the port, as the raw peer address:
    that is what [trustedIP] is asked about and, for an untrusted peer,
    what the destination header gets. *)
Theorem bracketed_peer_address_is_unwrapped hd r (f : http.Request -> W)
    (host port : string) hd1 :
  next hd = Some f ->
  all_bytes unbracketed_byte host = true -> plain port = true ->
  http.RemoteAddr r = "[" +:+ host +:+ "]:" +:+ port ->
  trustedIP (ParseIP host) (trusted hd) hd = Some (false, hd1) ->
  ServeHTTP r hd = Some (f (forward hd r host), hd1).
Proof.
  intros Hn Hh Hp Ha Ht. rewrite ServeHTTP_unfold. cbv zeta.
  rewrite Ha, SplitHostPort_bracketed by done. simpl fst. rewrite Ht.
  destruct (trustedIP_total (ParseIP host) (trusted hd) hd) as (t & c & Ht').
  rewrite Ht in Ht'. injection Ht' as _ ->.
  by rewrite (next_ServeHTTP_unfold _ (set_cache hd c) f Hn).
Qed.

End forwarding.

Section wrapping.
Context {W : Type}.
Context `{GoLib}.
Implicit Types (hd : Handler W) (b : Builder W) (ip : net.IP) (r : http.Request).


Lemma trustedIP_next_blind ip (ranges : list net.IPNet) :
  @next_blind W _ (trustedIP ip ranges).
Proof.
  intros hd n. rewrite !trustedIP_unfold. simpl cache.
  destruct (Nat.eqb _ _); [done |]. destruct (bool_decide _); [done |].
  by destruct (inRanges ranges ip).
Qed.

Lemma realIPFromXFF_loop_next_blind (ips : list string) (k : nat) :
  k <= length ips -> 0 < length ips -> @next_blind W _ (realIPFromXFF_loop ips k).
Proof.
  induction k as [|i IH]; intros Hk Hlen hd n.
  - destruct ips as [|s ips]; [simpl in Hlen; lia | done].
  - destruct (lookup_lt_is_Some_2 ips i) as [s Hi]; [lia |].
    rewrite !(realIPFromXFF_loop_S _ _ _ _ Hi). simpl trusted.
    rewrite trustedIP_next_blind.
    destruct (trustedIP _ _ hd) as [[t hd1]|]; [| done].
    destruct t; cbv beta iota delta [negb]; [| done].
    apply IH; [lia | done].
Qed.

Lemma realIPFromXFF_next_blind (xff : string) : @next_blind W _ (realIPFromXFF xff).
Proof.
  intros hd n. unfold realIPFromXFF. pose proof (Split_length xff ",") as Hlen.
  destruct (Nat.eqb_spec (length (strings.Split xff ",")) 0) as [E|_]; [lia |].
  unfold bind, get_handler. change (recursive (set_next hd n)) with (recursive hd).
  destruct (recursive hd); cbv beta iota delta [negb].
  - by apply realIPFromXFF_loop_next_blind.
  - unfold ips_at. by destruct (strings.Split xff "," !! _).
Qed.

Lemma candidate_next_blind hd0 r : @next_blind W _ (candidate hd0 r).
Proof.
  unfold candidate. destruct (String.eqb _ _); [apply realIPFromXFF_next_blind | done].
Qed.

(** X20.  What is wrapped has no part in resolving the address: wrapping
    another handler hands the same request to it and leaves the same
    cache. *)
Theorem wrapped_handler_is_not_consulted hd r (f g : http.Request -> W) :
  exists r' c,
    ServeHTTP r (Wrap hd f) = Some (f r', set_cache (Wrap hd f) c)
    /\ ServeHTTP r (Wrap hd g) = Some (g r', set_cache (Wrap hd g) c).
Proof.
  unfold Wrap. rewrite !ServeHTTP_unfold. cbv zeta. simpl trusted.
  set (raw := (net.SplitHostPort (http.RemoteAddr r)).1.1).
  rewrite !trustedIP_next_blind.
  destruct (trustedIP_total (ParseIP raw) (trusted hd) hd) as (t & c & ->).
  change (candidate (set_next hd (Some f))) with (candidate hd).
  change (candidate (set_next hd (Some g))) with (candidate hd).
  change (forward (set_next hd (Some f))) with (forward hd).
  change (forward (set_next hd (Some g))) with (forward hd).
  destruct t.
  - rewrite !candidate_next_blind.
    destruct (candidate_total hd r (set_cache hd c)) as (v & c' & ->).
    by exists (forward hd r (if String.eqb v "" then raw else v)), c'.
  - by exists (forward hd r raw), c.
Qed.

End wrapping.

Lemma wrapped_handler_is_not_consulted_witness :
  exists r' c,
    ServeHTTP (request loopback [("x-real-ip", "1.1.1.1")]) (Wrap lan_only echo)
    = Some (echo r', set_cache (Wrap lan_only echo) c)
    /\ ServeHTTP (request loopback [("x-real-ip", "1.1.1.1")])
         (Wrap lan_only http.RemoteAddr)
       = Some (http.RemoteAddr r', set_cache (Wrap lan_only http.RemoteAddr) c).
Proof.
  exact (wrapped_handler_is_not_consulted lan_only
           (request loopback [("x-real-ip", "1.1.1.1")]) echo http.RemoteAddr).
Defined.

(** ** The further properties on examples *)

Lemma lower_lower (c : ascii) : ascii_lib.lower (ascii_lib.lower c) = ascii_lib.lower c.
Proof. destruct c as [[] [] [] [] [] [] [] []]; reflexivity. Qed.

Lemma ToLower_ToLower (s : string) :
  ascii_lib.ToLower (ascii_lib.ToLower s) = ascii_lib.ToLower s.
Proof. induction s as [|c s IH]; [done |]. simpl. by rewrite lower_lower, IH. Qed.

Lemma Build_fails_exactly_on_forwarded_witness :
  (Build (W := string)
     (do_calls [CallTrustedIP [net_192_168]; CallSourceHeader " Forwarded ";
                CallRecursive true] New)).1
  = (None, Some "realip.Builder: `Forwarded` header is not supported").
Proof.
  destruct (Build_fails_exactly_on_forwarded (W := string)
              [CallTrustedIP [net_192_168]; CallSourceHeader " Forwarded ";
               CallRecursive true]) as [[Hfail _] _].
  apply Hfail. vm_compute. reflexivity.
Defined.

Lemma built_handler_fields_witness :
  exists hd : Handler string,
    (Build (do_calls client_ip_calls New)).1 = (Some hd, None)
    /\ srcHeader hd = "x-client-ip" /\ dstHeader hd = "x-real-ip"
    /\ trusted hd = [net_127_0_0_1; net_192_168] /\ recursive hd = true.
Proof.
  assert ((Build (W := string) (do_calls client_ip_calls New)).1
          = (Some (h (do_calls client_ip_calls New)), None)) as E
    by (vm_compute; reflexivity).
  exists (h (do_calls client_ip_calls New)). split; [exact E |].
  destruct (built_handler_fields client_ip_calls _ E) as (Hs & Hd & Ht & Hr & _).
  rewrite Hs, Hd, Ht, Hr. vm_compute. auto.
Defined.

Lemma built_handler_headers_lowered_witness :
  exists hd : Handler string,
    (Build (do_calls client_ip_calls New)).1 = (Some hd, None)
    /\ srcHeader hd <> "forwarded" /\ ToLower (srcHeader hd) = srcHeader hd.
Proof.
  assert ((Build (W := string) (do_calls client_ip_calls New)).1
          = (Some (h (do_calls client_ip_calls New)), None)) as E
    by (vm_compute; reflexivity).
  exists (h (do_calls client_ip_calls New)). split; [exact E |].
  destruct (built_handler_headers_lowered client_ip_calls _ E) as [Hne Hlow].
  split; [exact Hne |].
  destruct Hlow as [Hsrc _]; [exact ToLower_ToLower | reflexivity | exact Hsrc].
Defined.

Lemma calls_on_different_fields_commute_witness :
  (Build (W := string) (SourceHeader (TrustedIP New [net_192_168]) "Forwarded")).1
  = (Build (TrustedIP (SourceHeader New "Forwarded") [net_192_168])).1.
Proof.
  apply (calls_on_different_fields_commute (W := string) New
           (CallTrustedIP [net_192_168]) (CallSourceHeader "Forwarded")).
  simpl. lia.
Defined.



Lemma ServeHTTP_changes_only_cache_witness :
  match ServeHTTP (request "192.168.0.7:80" [("x-real-ip", "1.1.1.1")]) lan_only with
  | Some (_, hd') =>
      trusted hd' = trusted lan_only /\ cache lan_only ⊆ cache hd'
      /\ forall s, s ∈ cache hd' -> s ∉ cache lan_only ->
            exists e, s = net.String (ParseIP e)
                      /\ inRanges (trusted lan_only) (ParseIP e) = true
  | None => False
  end.
Proof.
  destruct (ServeHTTP _ lan_only) as [[w hd']|] eqn:E.
  - destruct (ServeHTTP_changes_only_cache _ _ _ _ E)
      as (Ht & _ & _ & _ & _ & Hsub & Hnew & _).
    split_and!; [exact Ht | exact Hsub |].
    intros s Hs Hnot. destruct (Hnew s Hs Hnot) as (e & _ & He). by exists e.
  - vm_compute in E. discriminate E.
Defined.


Lemma realIPFromXFF_returns_an_entry_witness :
  exists v hd', realIPFromXFF "  10.0.0.1 " xff_recursive = Some (v, hd')
                /\ v = "10.0.0.1".
Proof.
  destruct (realIPFromXFF_returns_an_entry "  10.0.0.1 " xff_recursive)
    as (v & hd' & E & _ & Hone).
  exists v, hd'. split; [exact E |]. rewrite Hone; vm_compute; reflexivity.
Defined.

Lemma trustedIP_reads_only_the_text_witness :
  trustedIP (map ascii_lib.to_byte [192; 168; 0; 1]%N) (trusted lan_only) lan_only
  = trustedIP (map ascii_lib.to_byte [0; 0; 0; 0; 0; 0; 0; 0; 0; 0; 255; 255; 192; 168; 0; 1]%N)
      (trusted lan_only) lan_only.
Proof.
  apply (trustedIP_reads_only_the_text (W := string)). vm_compute. reflexivity.
Defined.

Lemma trustedIP_ignores_range_order_witness :
  trustedIP (ParseIP "192.168.0.1") [net_127_0_0_1; net_192_168] xff_recursive
  = trustedIP (ParseIP "192.168.0.1") [net_192_168; net_127_0_0_1] xff_recursive.
Proof.
  apply (trustedIP_ignores_range_order (W := string)). apply perm_swap.
Defined.

Lemma chain_prefix_is_ignored_witness :
  fst <$> realIPFromXFF "6.6.6.6, 1.1.1.1, 192.168.0.1" xff_recursive = Some "1.1.1.1"
  /\ realIPFromXFF "6.6.6.6, 1.1.1.1,192.168.0.1" xff_last
     = Some ("192.168.0.1", xff_last).
Proof.
  destruct (chain_prefix_is_ignored xff_recursive "6.6.6.6" " 1.1.1.1, 192.168.0.1")
    as [_ Hrec].
  destruct (chain_prefix_is_ignored xff_last "6.6.6.6, 1.1.1.1" "192.168.0.1")
    as [Hlast _].
  split.
  - change "6.6.6.6, 1.1.1.1, 192.168.0.1" with ("6.6.6.6" +:+ "," +:+ " 1.1.1.1, 192.168.0.1").
    rewrite Hrec.
    + vm_compute. reflexivity.
    + reflexivity.
    + apply cache_sound_empty. reflexivity.
    + vm_compute. reflexivity.
  - change "6.6.6.6, 1.1.1.1,192.168.0.1" with ("6.6.6.6, 1.1.1.1" +:+ "," +:+ "192.168.0.1").
    rewrite Hlast; [vm_compute; reflexivity | reflexivity].
Defined.

Lemma port_is_ignored_witness :
  exists v,
    fst <$> ServeHTTP (with_RemoteAddr (request "" [("x-real-ip", "1.1.1.1")]) "127.0.0.1:80")
              lan_only = Some v
    /\ fst <$> ServeHTTP (with_RemoteAddr (request "" [("x-real-ip", "1.1.1.1")])
                            "127.0.0.1:54321") lan_only = Some v.
Proof.
  destruct (port_is_ignored lan_only (request "" [("x-real-ip", "1.1.1.1")]) echo
              "127.0.0.1" "80" "54321") as (v & hd' & E1 & E2).
  - reflexivity.
  - vm_compute. reflexivity.
  - vm_compute. reflexivity.
  - vm_compute. reflexivity.
  - change ("127.0.0.1" +:+ ":" +:+ "80") with "127.0.0.1:80" in E1.
    change ("127.0.0.1" +:+ ":" +:+ "54321") with "127.0.0.1:54321" in E2.
    rewrite E1, E2. simpl.
    exists (echo (forward lan_only
                    (with_RemoteAddr (request "" [("x-real-ip", "1.1.1.1")]) "127.0.0.1:80") v)).
    split; [reflexivity |]. unfold forward. by destruct (negb _).
Defined.

Lemma serving_twice_changes_nothing_witness :
  exists r' hd1 hd2,
    ServeHTTP (request loopback [("X-Forwarded-For", chain)]) xff_recursive
    = Some (echo r', hd1)
    /\ ServeHTTP r' hd1 = Some (echo r', hd2).
Proof.
  apply (serving_twice_changes_nothing xff_recursive
           (request loopback [("X-Forwarded-For", chain)]) echo).
  - reflexivity.
  - apply cache_sound_empty. reflexivity.
  - right. vm_compute. discriminate.
Defined.

Lemma only_peer_and_source_header_are_read_witness :
  fst <$> ServeHTTP {| http.RemoteAddr := loopback;
                       http.Request_Header :=
                         {[ "X-Real-Ip" := ["1.1.1.1"; "2.2.2.2"] ]} |} default_handler
  = fst <$> ServeHTTP (request loopback [("x-real-ip", "1.1.1.1")]) default_handler.
Proof.
  destruct (only_peer_and_source_header_are_read default_handler
              {| http.RemoteAddr := loopback;
                 http.Request_Header := {[ "X-Real-Ip" := ["1.1.1.1"; "2.2.2.2"] ]} |}
              (request loopback [("x-real-ip", "1.1.1.1")]) echo)
    as (v & hd' & -> & ->).
  - reflexivity.
  - reflexivity.
  - vm_compute. reflexivity.
  - simpl. f_equal. unfold forward. destruct (negb _); vm_compute; reflexivity.
Defined.

Lemma source_header_is_copied_verbatim_witness :
  fst <$> ServeHTTP (request loopback [("x-real-ip", " not an address ")]) default_handler
  = Some " not an address ".
Proof.
  destruct (source_header_is_copied_verbatim default_handler
              (request loopback [("x-real-ip", " not an address ")]) echo
              " not an address ") as (hd' & -> & Hget).
  - reflexivity.
  - apply cache_sound_empty. reflexivity.
  - vm_compute. discriminate.
  - vm_compute. reflexivity.
  - vm_compute. reflexivity.
  - discriminate.
  - exact (f_equal Some Hget).
Defined.

Lemma recursive_agrees_on_untrusted_last_hop_witness :
  fst <$> realIPFromXFF "192.168.0.1, 1.1.1.1" xff_recursive = Some "1.1.1.1"
  /\ fst <$> realIPFromXFF "192.168.0.1, 1.1.1.1" (set_recursive xff_recursive false)
     = fst <$> realIPFromXFF "192.168.0.1, 1.1.1.1" xff_recursive.
Proof.
  destruct (recursive_agrees_on_untrusted_last_hop xff_recursive "192.168.0.1, 1.1.1.1")
    as [Hlast Hsame].
  - reflexivity.
  - apply cache_sound_empty. reflexivity.
  - vm_compute. reflexivity.
  - split; [| exact Hsame]. rewrite Hlast. vm_compute. reflexivity.
Defined.

Lemma more_ranges_keep_trust_witness :
  fst <$> trustedIP (ParseIP "192.168.0.1") ([net_192_168] ++ [net_127_0_0_1]) lan_only
  = Some true.
Proof.
  apply (more_ranges_keep_trust (W := string)).
  - discriminate.
  - vm_compute. reflexivity.
Defined.

Lemma bracketed_peer_address_is_unwrapped_witness :
  fst <$> ServeHTTP (request "[2001:db8::1]:8080" [("x-real-ip", "1.1.1.1")]) lan_only
  = Some "2001:db8::1".
Proof.
  rewrite (bracketed_peer_address_is_unwrapped lan_only
             (request "[2001:db8::1]:8080" [("x-real-ip", "1.1.1.1")]) echo
             "2001:db8::1" "8080" lan_only).
  - vm_compute. reflexivity.
  - reflexivity.
  - vm_compute. reflexivity.
  - vm_compute. reflexivity.
  - reflexivity.
  - vm_compute. reflexivity.
Defined.
